(** * OpenDossier: the research pipeline and its stream demultiplexer

    A shallow embedding of the script of [src/App.vue]: the query optimizer
    ([optimizeQuery]), the evidence gatherer ([handleInitialSubmit]) and the
    reader of the concatenated-JSON answer stream ([streamAiResponse]),
    followed by the properties the specification states about them.

    Conventions.
    - A JavaScript string is the list of its UTF-16 code units ([text]).
    - A value obtained from [JSON.parse] or from a response body is a
      [json]; [None : option json] stands for [undefined].
    - An exception is represented by the text of its [message].
    - The network is an oracle giving the outcome of every request; the
      requests the program issues are collected in a log. *)

From Stdlib Require Import ZArith NArith QArith Qminmax Ascii String
  DecimalString Lia.
From stdpp Require Import base option list gmap.

Local Open Scope N_scope.

(** ** Text *)

Abbreviation code_unit := N.
Abbreviation text := (list N).

(** A literal of the source, code unit by code unit. *)
Definition lit (s : string) : text :=
  map N_of_ascii (list_ascii_of_string s).

Definition QUOTE : code_unit := 34.       (* the double quote *)
Definition APOSTROPHE : code_unit := 39.  (* the single quote *)
Definition BACKSLASH : code_unit := 92.
Definition LBRACE : code_unit := 123.
Definition RBRACE : code_unit := 125.
Definition LF : code_unit := 10.          (* \n in the source's literals *)

(** Text of a JSON document written with a backquote wherever the document
    has a double quote. *)
Definition doc (s : string) : text :=
  map (fun c => if N.eqb c 96 then QUOTE else c) (lit s).

(** ** Values of the runtime *)

(** What [JSON.parse] builds. A number is kept as the text that the
    runtime's number-to-string conversion gives for it (zero prints as 0
    whatever its sign); an object is the list of its own properties, each
    name once. *)
#[warning="-register-all"]
Inductive json : Type :=
| JNull
| JBool (b : bool)
| JNum (repr : text)
| JStr (s : text)
| JArr (items : list json)
| JObj (props : list (text * json)).

Fixpoint own (key : text) (props : list (text * json)) : option json :=
  match props with
  | [] => None
  | (k, v) :: rest => if decide (k = key) then Some v else own key rest
  end.

(** [v.key], for [v] neither null nor undefined and a [key] that no
    built-in prototype defines (the source reads choices, delta, content,
    finish_reason, message, data, title and url). *)
Definition member (key : string) (v : json) : option json :=
  match v with
  | JObj props => own (lit key) props
  | _ => None
  end.

(** [v[0]]: an element of an array, a one-unit string out of a string, the
    property named 0 of an object. *)
Definition first (v : json) : option json :=
  match v with
  | JArr items => head items
  | JStr (c :: _) => Some (JStr [c])
  | JObj props => own (lit "0") props
  | _ => None
  end.

(** Optional chaining [v?.…]: undefined when [v] is null or undefined. *)
Definition chain (f : json -> option json) (v : option json) : option json :=
  match v with
  | None | Some JNull => None
  | Some w => f w
  end.

Definition falsy_number (repr : text) : bool :=
  bool_decide (repr = lit "0") || bool_decide (repr = lit "NaN").

Definition truthy (v : option json) : bool :=
  match v with
  | None | Some JNull => false
  | Some (JBool b) => b
  | Some (JNum repr) => negb (falsy_number repr)
  | Some (JStr s) => negb (bool_decide (s = []))
  | Some (JArr _) | Some (JObj _) => true
  end.

(** [v || ''] *)
Definition or_empty (v : option json) : json :=
  match v with
  | Some w => if truthy v then w else JStr []
  | None => JStr []
  end.

(** Conversion to a string, as string concatenation and template literals
    perform it. An array is joined with commas, null elements printing as
    nothing. An object prints through [Object.prototype.toString] unless it
    has an own property named toString: what [JSON.parse] stored there is
    not callable, and the conversion raises a TypeError ([None]). *)
Fixpoint ToString (v : json) : option text :=
  match v with
  | JNull => Some (lit "null")
  | JBool true => Some (lit "true")
  | JBool false => Some (lit "false")
  | JNum repr => Some repr
  | JStr s => Some s
  | JArr items =>
      let element (x : json) : option text :=
        match x with JNull => Some [] | _ => ToString x end in
      (fix join (l : list json) : option text :=
         match l with
         | [] => Some []
         | [x] => element x
         | x :: rest =>
             match element x, join rest with
             | Some e, Some r => Some (e ++ lit "," ++ r)
             | _, _ => None
             end
         end) items
  | JObj props =>
      match own (lit "toString") props with
      | Some _ => None
      | None => Some (lit "[object Object]")
      end
  end.

(** [`${v}`] for a value that may be undefined. *)
Definition template (v : option json) : option text :=
  match v with
  | None => Some (lit "undefined")
  | Some w => ToString w
  end.

(** ** The boundary scanner of [streamAiResponse] (the [for] loop) *)

Record scanner := { openBraces : Z; inString : bool }.

(** The quote test of the loop body; [prev] is [buffer[i - 1]], absent
    when [i === 0]. *)
Definition toggles (prev : option code_unit) (char : code_unit) : bool :=
  N.eqb char QUOTE &&
  match prev with
  | None => true
  | Some p => negb (N.eqb p BACKSLASH)
  end.

Definition quote_step (prev : option code_unit) (char : code_unit)
    (st : scanner) : scanner :=
  if toggles prev char
  then {| openBraces := openBraces st; inString := negb (inString st) |}
  else st.

(** One turn of the loop body: [inl] is the state carried to [i + 1],
    [inr tt] the [break] taken with [objectEndIndex = i + 1]. *)
Definition scan_step (prev : option code_unit) (char : code_unit)
    (st : scanner) : scanner + unit :=
  let st := quote_step prev char st in
  if inString st then inl st
  else if N.eqb char LBRACE
  then inl {| openBraces := (openBraces st + 1)%Z; inString := false |}
  else if N.eqb char RBRACE
  then
    if Z.eqb (openBraces st - 1) 0 then inr tt
    else inl {| openBraces := (openBraces st - 1)%Z; inString := false |}
  else inl st.

(** The loop from index [i] on, over the rest of the buffer; [None] is
    [objectEndIndex === -1]. *)
Fixpoint scan (prev : option code_unit) (i : nat) (st : scanner)
    (rest : text) : option nat :=
  match rest with
  | [] => None
  | char :: rest' =>
      match scan_step prev char st with
      | inr _ => Some (S i)
      | inl st' => scan (Some char) (S i) st' rest'
      end
  end.

Definition scan_start : scanner := {| openBraces := 0; inString := false |}.

(** The state the loop is in once it has gone through the whole of [rest]
    without taking the [break]. *)
Fixpoint scan_end (prev : option code_unit) (st : scanner) (rest : text)
    : option scanner :=
  match rest with
  | [] => Some st
  | char :: rest' =>
      match scan_step prev char st with
      | inr _ => None
      | inl st' => scan_end (Some char) st' rest'
      end
  end.

Definition objectEndIndex (buffer : text) : option nat :=
  scan None 0 scan_start buffer.

(** ** The state of the page *)

Inductive role_t := user | assistant | system.

Record Message := { role : role_t; content : text }.

Inductive view_t := initial | chat.

(** The refs of the script that the pipeline reads or writes. *)
Record app := {
  view : view_t;
  initialQuery : text;
  followUpQuery : text;
  currentTopic : text;
  isLoading : bool;
  loadingStatus : text;
  sources : list json;
  messages : list Message
}.

Definition set_messages (ms : list Message) (a : app) : app :=
  {| view := view a; initialQuery := initialQuery a;
     followUpQuery := followUpQuery a; currentTopic := currentTopic a;
     isLoading := isLoading a; loadingStatus := loadingStatus a;
     sources := sources a; messages := ms |}.

Definition set_isLoading (b : bool) (a : app) : app :=
  {| view := view a; initialQuery := initialQuery a;
     followUpQuery := followUpQuery a; currentTopic := currentTopic a;
     isLoading := b; loadingStatus := loadingStatus a;
     sources := sources a; messages := messages a |}.

Definition set_loadingStatus (t : text) (a : app) : app :=
  {| view := view a; initialQuery := initialQuery a;
     followUpQuery := followUpQuery a; currentTopic := currentTopic a;
     isLoading := isLoading a; loadingStatus := t;
     sources := sources a; messages := messages a |}.

Definition set_view (v : view_t) (a : app) : app :=
  {| view := v; initialQuery := initialQuery a;
     followUpQuery := followUpQuery a; currentTopic := currentTopic a;
     isLoading := isLoading a; loadingStatus := loadingStatus a;
     sources := sources a; messages := messages a |}.

Definition set_currentTopic (t : text) (a : app) : app :=
  {| view := view a; initialQuery := initialQuery a;
     followUpQuery := followUpQuery a; currentTopic := t;
     isLoading := isLoading a; loadingStatus := loadingStatus a;
     sources := sources a; messages := messages a |}.

Definition set_sources (l : list json) (a : app) : app :=
  {| view := view a; initialQuery := initialQuery a;
     followUpQuery := followUpQuery a; currentTopic := currentTopic a;
     isLoading := isLoading a; loadingStatus := loadingStatus a;
     sources := l; messages := messages a |}.

(** [messages.value.push(m)] *)
Definition push (m : Message) (a : app) : app :=
  set_messages (messages a ++ [m]) a.

(** [messages.value[i].content = c] *)
Definition set_content (i : nat) (c : text) (a : app) : app :=
  set_messages
    (alter (fun m => {| role := role m; content := c |}) i (messages a)) a.

(** [messages.value[i].content], empty when there is no such message. *)
Definition content_at (i : nat) (a : app) : text :=
  from_option content [] (messages a !! i).

(** ** The answer stream *)

(** What the successive [reader.read()] calls give: a chunk (already
    decoded to text), the end of the stream, or a rejection. *)
Inductive reads :=
| Done
| Chunk (value : text) (rest : reads)
| ReadRejects (message : text).

(** What [fetch] gives to [streamAiResponse]: a rejection, a response that
    is not ok or has no body (with the text of its body), or a body. *)
Inductive response :=
| FetchRejects (message : text)
| NotOk (errorText : text)
| Body (body : reads).

(** The locals of [streamAiResponse] together with the refs. [writes] is
    not in the source: it records, in order, every value given to the
    content of the open assistant message. *)
Record frame := {
  assistantResponse : text;
  buffer : text;
  refs : app;
  writes : list text
}.

Inductive flow := Continue | Returned.

(** [parsed.choices?.[0]?.delta?.content] *)
Definition delta_fragment (parsed : json) : option json :=
  chain (member "content")
    (chain (member "delta") (chain first (member "choices" parsed))).

(** [parsed.choices?.[0]?.delta?.content || ''] *)
Definition delta_content (parsed : json) : json :=
  or_empty (delta_fragment parsed).

(** [parsed.choices?.[0]?.finish_reason] *)
Definition finish_reason (parsed : json) : option json :=
  chain (member "finish_reason") (chain first (member "choices" parsed)).

(** [… === 'stop'] *)
Definition is_stop (v : option json) : bool :=
  match v with
  | Some (JStr s) => bool_decide (s = lit "stop")
  | _ => false
  end.

Section Demultiplexer.

(** [JSON.parse] of the runtime; [None] when it raises. *)
Variable JSON_parse : text -> option json.

Variable lastMessageIndex : nat.

(** [assistantResponse += t] *)
Definition accumulate (t : text) (f : frame) : frame :=
  {| assistantResponse := assistantResponse f ++ t; buffer := buffer f;
     refs := refs f; writes := writes f |}.

(** [messages.value[lastMessageIndex].content = assistantResponse]; with
    no message at that index the assignment raises a TypeError ([None]). *)
Definition store (f : frame) : option frame :=
  match messages (refs f) !! lastMessageIndex with
  | Some _ =>
      Some {| assistantResponse := assistantResponse f; buffer := buffer f;
              refs := set_content lastMessageIndex (assistantResponse f)
                        (refs f);
              writes := writes f ++ [assistantResponse f] |}
  | None => None
  end.

(** Both steps, when the message is there. *)
Definition publish (t : text) (f : frame) : frame :=
  let r := assistantResponse f ++ t in
  {| assistantResponse := r; buffer := buffer f;
     refs := set_content lastMessageIndex r (refs f);
     writes := writes f ++ [r] |}.

(** The [try] block with its [catch]: whatever is raised (by
    [JSON.parse], by reading a property of null, by the conversion of the
    content to a string, by the assignment) is logged and dropped, and
    the loop goes on. *)
Definition try_object (jsonStr : text) (f : frame) : flow * frame :=
  match JSON_parse jsonStr with
  | None | Some JNull => (Continue, f)
  | Some parsed =>
      match ToString (delta_content parsed) with
      | None => (Continue, f)
      | Some t =>
          let f1 := accumulate t f in
          match store f1 with
          | None => (Continue, f1)
          | Some f2 =>
              if is_stop (finish_reason parsed) then (Returned, f2)
              else (Continue, f2)
          end
      end
  end.

Definition consume (n : nat) (f : frame) : frame :=
  {| assistantResponse := assistantResponse f; buffer := drop n (buffer f);
     refs := refs f; writes := writes f |}.

(** The inner [while (buffer.length > 0)]; every turn that goes round
    again shortens the buffer, so [length buffer] turns are enough. *)
Fixpoint extract (turns : nat) (f : frame) : flow * frame :=
  match turns with
  | O => (Continue, f)
  | S turns' =>
      match buffer f with
      | [] => (Continue, f)
      | _ :: _ =>
          match objectEndIndex (buffer f) with
          | None => (Continue, f)
          | Some e =>
              match try_object (take e (buffer f)) (consume e f) with
              | (Returned, f') => (Returned, f')
              | (Continue, f') => extract turns' f'
              end
          end
      end
  end.

(** The whole inner loop on a frame. *)
Definition settle (f : frame) : flow * frame :=
  extract (length (buffer f)) f.

(** [at_loop_head f g]: the inner loop entered with the frame [f] comes
    to the top of a turn with the frame [g]. *)
Inductive at_loop_head : frame -> frame -> Prop :=
| head_here f : at_loop_head f f
| head_next f e f' g :
    objectEndIndex (buffer f) = Some e ->
    try_object (take e (buffer f)) (consume e f) = (Continue, f') ->
    at_loop_head f' g ->
    at_loop_head f g.

Definition receive (value : text) (f : frame) : frame :=
  {| assistantResponse := assistantResponse f; buffer := buffer f ++ value;
     refs := refs f; writes := writes f |}.

(** The outer [while (true)]: the frame it ends with, and [None] when
    the function leaves the [try] normally (end of stream, or stop), the
    message of the rejection when a read rejects. After a stop the rest of
    the stream is not read. *)
Fixpoint pump (body : reads) (f : frame) : frame * option text :=
  match body with
  | Done => (f, None)
  | ReadRejects message => (f, Some message)
  | Chunk value rest =>
      let f1 := receive value f in
      match settle f1 with
      | (Returned, f2) => (f2, None)
      | (Continue, f2) => pump rest f2
      end
  end.

End Demultiplexer.

(** The note of the outer [catch]. *)
Definition error_note (message : text) : text :=
  [LF; LF] ++ lit "**An error occurred:**" ++ [LF; LF] ++ message.

(** [messages.value[i].content += note], [i] being the index of a
    message (in [streamAiResponse], of the one it has pushed). *)
Definition append_content (i : nat) (note : text) (f : frame) : frame :=
  let c := content_at i (refs f) ++ note in
  {| assistantResponse := assistantResponse f; buffer := buffer f;
     refs := set_content i c (refs f); writes := writes f ++ [c] |}.

(** The [try] block of [streamAiResponse], from the frame set up before
    it: the frame it leaves and the message of what it threw, if anything.
    A response whose body cannot be read as text either behaves as
    [FetchRejects]. *)
Definition attempt (JSON_parse : text -> option json)
    (lastMessageIndex : nat) (reply : response) (f0 : frame)
    : frame * option text :=
  match reply with
  | FetchRejects message => (f0, Some message)
  | NotOk errorText =>
      (f0, Some (lit "AI model request failed: " ++ errorText))
  | Body body => pump JSON_parse lastMessageIndex body f0
  end.

(** The frame before the [try]: the empty assistant message is pushed. *)
Definition opening (a : app) : frame :=
  {| assistantResponse := []; buffer := [];
     refs := push {| role := assistant; content := [] |} a;
     writes := [[]] |}.

Definition streamAiResponse (JSON_parse : text -> option json)
    (reply : response) (a : app) : frame :=
  let f0 := opening a in
  let lastMessageIndex := (length (messages (refs f0)) - 1)%nat in
  let '(f1, thrown) := attempt JSON_parse lastMessageIndex reply f0 in
  let f2 :=
    match thrown with
    | Some message => append_content lastMessageIndex (error_note message) f1
    | None => f1
    end in
  {| assistantResponse := assistantResponse f2; buffer := buffer f2;
     refs := set_isLoading false (refs f2); writes := writes f2 |}.

(** Successive values each of which extends the one before. *)
Definition monotone (ws : list text) : Prop :=
  forall i v w, ws !! i = Some v -> ws !! S i = Some w -> v `prefix_of` w.

(** What holds of every frame of a run: the open message exists and its
    content is the accumulated answer; [writes] ends with it and only
    grows. *)
Definition open_message (lastMessageIndex : nat) (f : frame) : Prop :=
  (lastMessageIndex < length (messages (refs f)))%nat
  /\ content_at lastMessageIndex (refs f) = assistantResponse f.

Definition in_step (lastMessageIndex : nat) (f : frame) : Prop :=
  open_message lastMessageIndex f
  /\ head (writes f) = Some []
  /\ last (writes f) = Some (assistantResponse f)
  /\ monotone (writes f).

(** ** The query optimizer *)

(** Outcome of [await robustFetch(…)]: the parsed JSON body, or the body as
    a string ([JStr]) when the response is not declared as JSON, or a
    rejection with its message. *)
Inductive settled :=
| Fulfilled (value : json)
| Rejected (reason : text).

(** White space and line terminators, the code units [String.prototype.trim]
    removes. *)
Definition is_space (c : code_unit) : bool :=
  bool_decide (c ∈ [9; 10; 11; 12; 13; 32; 160; 5760; 8232; 8233; 8239;
                    8287; 12288; 65279])
  || (N.leb 8192 c && N.leb c 8202).

Fixpoint trim_start (s : text) : text :=
  match s with
  | c :: rest => if is_space c then trim_start rest else s
  | [] => []
  end.

Definition trim (s : text) : text :=
  reverse (trim_start (reverse (trim_start s))).

(** The [replace] of the source, with its global pattern: every double
    quote and every apostrophe goes, wherever it stands. *)
Definition strip_quotes (s : text) : text :=
  filter (fun c => c ≠ QUOTE ∧ c ≠ APOSTROPHE) s.

(** [response?.choices?.[0]?.message?.content] *)
Definition completion_content (response : json) : option json :=
  chain (member "content")
    (chain (member "message")
       (chain first (chain (member "choices") (Some response)))).

(** What the [try] block of [optimizeQuery] can raise. *)
Inductive optimizer_error :=
| RequestFailed (reason : text)   (* robustFetch rejected *)
| NoTrimMethod.                   (* the content is not a string *)

(** The [try] block, [reply] being the outcome of the one request the
    function makes: the text returned, or what is raised. An absent or
    null content stops the optional chain ([optimized] is undefined); any
    other content that is not a string has no [trim] method, and calling
    it raises a TypeError. *)
Definition optimize_try (reply : settled) (query : text)
    : optimizer_error + text :=
  match reply with
  | Rejected reason => inl (RequestFailed reason)
  | Fulfilled response =>
      match completion_content response with
      | None | Some JNull => inr query
      | Some (JStr s) =>
          let optimized := trim s in
          match optimized with
          | [] => inr query
          | _ :: _ => inr (strip_quotes optimized)
          end
      | Some _ => inl NoTrimMethod
      end
  end.

(** The function with its [catch], which returns the query. *)
Definition optimizeQuery (reply : settled) (query : text) : text :=
  match optimize_try reply query with
  | inr optimized => optimized
  | inl _ => query
  end.

(** ** The research pipeline *)

Definition JINA_SEARCH_API : text := lit "https://s.jina.ai/".
Definition JINA_READER_API : text := lit "https://r.jina.ai/".

Definition NoSourcesError : text :=
  lit "Could not find any relevant sources. Try rephrasing your query.".

Definition NoReadableContentError : text :=
  lit "Found sources, but was unable to read their content. They may be inaccessible or in an unsupported format.".

Definition systemPrompt : text :=
  lit "You are a neutral research assistant for OpenDossier. Your goal is to provide a comprehensive, evidence-based answer to the user's question based *only* on the provided source materials. Synthesize information from all sources, quote them with markdown, and cite them like [1], [2], etc. If the answer isn't in the sources, say so. Note: The source content may be truncated.".

Definition userPrompt (query combinedContext : text) : text :=
  lit "User's Question: " ++ [QUOTE] ++ query ++ [QUOTE] ++ [LF; LF] ++
  lit "--- PROVIDED SOURCES ---" ++ [LF] ++ combinedContext.

(** The message of the [catch] of [handleInitialSubmit]. *)
Definition research_error (message : text) : text :=
  lit "**An error occurred during research:**" ++ [LF; LF] ++ message.

(** A number in a template literal (a count or an index). *)
Definition decimal (n : nat) : text :=
  lit (NilZero.string_of_uint (Nat.to_uint n)).

(** The block appended for one readable source, from the template
    literal of the [forEach]. *)
Definition source_block (ordinal : nat) (title url content : text) : text :=
  lit "--- SOURCE [" ++ decimal ordinal ++ lit "] ---" ++ [LF] ++
  lit "Title: " ++ title ++ [LF] ++
  lit "URL: " ++ url ++ [LF; LF] ++ content ++ [LF; LF].

(** Errors the runtime itself raises in the pipeline. *)
Inductive engine_error := PropertyOfNull | NotPrimitive | MalformedURI.

(** The network: the outcome of each request the pipeline can make. *)
Record network := {
  on_chat : text -> settled;            (* optimizeQuery's request, by query *)
  on_search : text -> settled;          (* the search request, by URL *)
  on_read : nat -> text -> settled;     (* the read of a position, by URL *)
  on_stream : list Message -> response  (* the request of streamAiResponse *)
}.

Inductive request :=
| ChatRequest (query : text)
| SearchRequest (url : text)
| ReadRequest (url : text)
| StreamRequest (messageHistory : list Message).

(** The guard on the search response: the elements of
    [searchResponse.data] when it passes, [None] when it throws. *)
Definition search_data (searchResponse : json) : option (list json) :=
  match chain (member "data") (Some searchResponse) with
  | Some (JArr (x :: l)) => Some (x :: l)
  | _ => None
  end.

(** [`${JINA_READER_API}${source.url}`] *)
Definition reader_url (source : json) : engine_error + text :=
  match source with
  | JNull => inl PropertyOfNull
  | _ =>
      match template (member "url" source) with
      | None => inl NotPrimitive
      | Some u => inr (JINA_READER_API ++ u)
      end
  end.

(** [topSources.map(source => robustFetch(…))]: the requests are issued
    from left to right, up to the first URL that cannot be built. *)
Fixpoint reader_urls (topSources : list json)
    : list text * option engine_error :=
  match topSources with
  | [] => ([], None)
  | source :: rest =>
      match reader_url source with
      | inl e => ([], Some e)
      | inr u => let '(us, e) := reader_urls rest in (u :: us, e)
      end
  end.

(** [result.value?.data?.content || result.value?.content || ''] *)
Definition read_content (value : json) : json :=
  let c1 := chain (member "content") (chain (member "data") (Some value)) in
  match c1 with
  | Some w => if truthy c1 then w else or_empty (chain (member "content") (Some value))
  | None => or_empty (chain (member "content") (Some value))
  end.

(** [`… ${topSources[index].title} … ${topSources[index].url} … ${content}`] *)
Definition render_block (index : nat) (source content : json)
    : engine_error + text :=
  match source with
  | JNull => inl PropertyOfNull
  | _ =>
      match template (member "title" source),
            template (member "url" source), ToString content with
      | Some t, Some u, Some c => inr (source_block (index + 1) t u c)
      | _, _, _ => inl NotPrimitive
      end
  end.

(** The [forEach] over the settled reads, from position [index] on; the
    accumulator is [(combinedContext, successfulReads)]. A rejected read
    only logs a warning. *)
Fixpoint gather (index : nat) (topSources : list json)
    (readerResults : list settled) (acc : text * nat)
    : engine_error + (text * nat) :=
  match topSources, readerResults with
  | source :: sources', result :: results' =>
      match result with
      | Fulfilled value =>
          if truthy (Some value) then
            let content := read_content value in
            if truthy (Some content) then
              match render_block index source content with
              | inl e => inl e
              | inr block =>
                  gather (S index) sources' results'
                    (fst acc ++ block, S (snd acc))
              end
            else gather (S index) sources' results' acc
          else gather (S index) sources' results' acc
      | Rejected _ => gather (S index) sources' results' acc
      end
  | _, _ => inr acc
  end.

(** [resetState(keepQuery)] *)
Definition resetState (keepQuery : bool) (a : app) : app :=
  {| view := initial;
     initialQuery := if keepQuery then initialQuery a else [];
     followUpQuery := []; currentTopic := [];
     isLoading := false; loadingStatus := loadingStatus a;
     sources := []; messages := [] |}.

Section Pipeline.

Variable JSON_parse : text -> option json.

(** [encodeURIComponent]; [None] when it raises a URIError. *)
Variable encodeURIComponent : text -> option text.

(** The message the runtime gives to an error it raises. *)
Variable engine_message : engine_error -> text.

Variable net : network.

(** The [try] block of [handleInitialSubmit] once the guard on the search
    response has passed, [data] being [searchResponse.data]: the refs,
    the requests issued, and the message of what was thrown, if
    anything. *)
Definition read_sources (a : app) (log : list request) (data : list json)
    : app * list request * option text :=
  let topSources := take 5 data in
  let a := set_sources topSources a in
  let a :=
    set_loadingStatus
      (lit "Reading " ++ decimal (length topSources) ++ lit " sources...")
      a in
  let '(urls, failed) := reader_urls topSources in
  let log := log ++ map ReadRequest urls in
  match failed with
  | Some e => (a, log, Some (engine_message e))
  | None =>
      let readerResults := imap (on_read net) urls in
      match gather 0 topSources readerResults ([], 0%nat) with
      | inl e => (a, log, Some (engine_message e))
      | inr (combinedContext, successfulReads) =>
          match successfulReads with
          | O => (a, log, Some NoReadableContentError)
          | S _ =>
              let a :=
                set_loadingStatus (lit "Synthesizing information...") a in
              let messageHistory :=
                [ {| role := system; content := systemPrompt |};
                  {| role := user;
                     content :=
                       userPrompt (initialQuery a) combinedContext |} ] in
              let f :=
                streamAiResponse JSON_parse (on_stream net messageHistory)
                  a in
              (refs f, log ++ [StreamRequest messageHistory], None)
          end
      end
  end.

(** The [try] block of [handleInitialSubmit]. *)
Definition research (a : app) : app * list request * option text :=
  let a := set_loadingStatus (lit "Optimizing search query...") a in
  let log := [ChatRequest (initialQuery a)] in
  let optimizedQuery :=
    optimizeQuery (on_chat net (initialQuery a)) (initialQuery a) in
  let a := set_loadingStatus (lit "Searching for relevant sources...") a in
  match encodeURIComponent optimizedQuery with
  | None => (a, log, Some (engine_message MalformedURI))
  | Some encoded =>
      let searchUrl := JINA_SEARCH_API ++ encoded in
      let log := log ++ [SearchRequest searchUrl] in
      match on_search net searchUrl with
      | Rejected message => (a, log, Some message)
      | Fulfilled searchResponse =>
          match search_data searchResponse with
          | None => (a, log, Some NoSourcesError)
          | Some data => read_sources a log data
          end
      end
  end.

(** What [handleInitialSubmit] does before its [try]. *)
Definition begin_submit (a : app) : app :=
  let a := resetState true a in
  let a := set_isLoading true a in
  let a := set_view chat a in
  let a := set_currentTopic (initialQuery a) a in
  push {| role := user; content := initialQuery a |} a.

(** Its [catch] and its [finally]. *)
Definition conclude (outcome : app * list request * option text)
    : app * list request :=
  let '(a, log, thrown) := outcome in
  let a :=
    match thrown with
    | Some message =>
        push {| role := assistant; content := research_error message |} a
    | None => a
    end in
  (set_loadingStatus [] (set_isLoading false a), log).

Definition handleInitialSubmit (a : app) : app * list request :=
  match trim (initialQuery a), isLoading a with
  | _ :: _, false => conclude (research (begin_submit a))
  | _, _ => (a, [])
  end.

End Pipeline.

(** ** A reader of JSON documents

    An executable reading of [JSON.parse], used to run the model on
    concrete streams. It follows the JSON grammar for objects, arrays,
    strings with their escapes, the three literal names and integers of at
    most fifteen digits; a document with a fraction, an exponent or a
    longer integer is outside what it reads. The properties below are
    proved for an arbitrary [JSON_parse]; this reader only instantiates
    them. *)
Module Sample.

Definition is_ws (c : code_unit) : bool := bool_decide (c ∈ [9; 10; 13; 32]).

Fixpoint skip_ws (s : text) : text :=
  match s with
  | c :: rest => if is_ws c then skip_ws rest else s
  | [] => []
  end.

Definition hex (c : code_unit) : option N :=
  if N.leb 48 c && N.leb c 57 then Some (c - 48)
  else if N.leb 65 c && N.leb c 70 then Some (c - 55)
  else if N.leb 97 c && N.leb c 102 then Some (c - 87)
  else None.

(** The code unit an escape letter stands for. *)
Definition escape (c : code_unit) : option code_unit :=
  if N.eqb c 34 then Some 34 else if N.eqb c 92 then Some 92
  else if N.eqb c 47 then Some 47 else if N.eqb c 98 then Some 8
  else if N.eqb c 102 then Some 12 else if N.eqb c 110 then Some 10
  else if N.eqb c 114 then Some 13 else if N.eqb c 116 then Some 9
  else None.

(** The characters of a string after its opening quote, and what follows
    its closing quote. *)
Fixpoint string_body (s : text) : option (text * text) :=
  match s with
  | [] => None
  | c :: rest =>
      if N.eqb c QUOTE then Some ([], rest)
      else if N.eqb c BACKSLASH then
        match rest with
        | [] => None
        | e :: rest1 =>
            if N.eqb e 117 then
              match rest1 with
              | h1 :: h2 :: h3 :: h4 :: rest2 =>
                  match hex h1, hex h2, hex h3, hex h4, string_body rest2 with
                  | Some a, Some b, Some c, Some d, Some (str, after) =>
                      Some ((a * 4096 + b * 256 + c * 16 + d) :: str, after)
                  | _, _, _, _, _ => None
                  end
              | _ => None
              end
            else
              match escape e, string_body rest1 with
              | Some u, Some (str, after) => Some (u :: str, after)
              | _, _ => None
              end
        end
      else if N.ltb c 32 then None
      else
        match string_body rest with
        | Some (str, after) => Some (c :: str, after)
        | None => None
        end
  end.

Definition is_digit (c : code_unit) : bool := N.leb 48 c && N.leb c 57.

Fixpoint digits (s : text) : text * text :=
  match s with
  | c :: rest =>
      if is_digit c then let '(ds, after) := digits rest in (c :: ds, after)
      else ([], s)
  | [] => ([], [])
  end.

Definition integer (s : text) : option (json * text) :=
  let '(negative, s1) :=
    match s with
    | c :: rest => if N.eqb c 45 then (true, rest) else (false, s)
    | [] => (false, s)
    end in
  let '(ds, after) := digits s1 in
  let continues :=
    match after with
    | c :: _ => bool_decide (c ∈ [46; 69; 101])
    | [] => false
    end in
  match ds with
  | [] => None
  | d :: more =>
      if continues || Nat.ltb 15 (length ds)
         || (N.eqb d 48 && negb (bool_decide (more = [])))
      then None
      else if negative && negb (bool_decide (ds = [48]))
      then Some (JNum (45 :: ds), after)
      else Some (JNum ds, after)
  end.

Fixpoint strip (word s : text) : option text :=
  match word, s with
  | [], _ => Some s
  | w :: word', c :: rest => if N.eqb w c then strip word' rest else None
  | _ :: _, [] => None
  end.

(** A later member replaces an earlier one of the same name. *)
Fixpoint set_prop (key : text) (v : json) (props : list (text * json))
    : list (text * json) :=
  match props with
  | [] => [(key, v)]
  | (k, w) :: rest =>
      if decide (k = key) then (k, v) :: rest
      else (k, w) :: set_prop key v rest
  end.

Fixpoint value (fuel : nat) (s : text) : option (json * text) :=
  match fuel with
  | O => None
  | S fuel =>
      match skip_ws s with
      | [] => None
      | c :: rest =>
          if N.eqb c LBRACE then
            match skip_ws rest with
            | c' :: rest' =>
                if N.eqb c' RBRACE then Some (JObj [], rest')
                else members fuel rest []
            | [] => None
            end
          else if N.eqb c 91 then
            match skip_ws rest with
            | c' :: rest' =>
                if N.eqb c' 93 then Some (JArr [], rest')
                else elements fuel rest []
            | [] => None
            end
          else if N.eqb c QUOTE then
            match string_body rest with
            | Some (str, after) => Some (JStr str, after)
            | None => None
            end
          else
            match strip (lit "true") (c :: rest),
                  strip (lit "false") (c :: rest),
                  strip (lit "null") (c :: rest) with
            | Some after, _, _ => Some (JBool true, after)
            | _, Some after, _ => Some (JBool false, after)
            | _, _, Some after => Some (JNull, after)
            | None, None, None => integer (c :: rest)
            end
      end
  end
with members (fuel : nat) (s : text) (acc : list (text * json))
    : option (json * text) :=
  match fuel with
  | O => None
  | S fuel =>
      match skip_ws s with
      | c :: rest =>
          if N.eqb c QUOTE then
            match string_body rest with
            | Some (key, rest1) =>
                match skip_ws rest1 with
                | colon :: rest2 =>
                    if N.eqb colon 58 then
                      match value fuel rest2 with
                      | Some (v, rest3) =>
                          match skip_ws rest3 with
                          | sep :: rest4 =>
                              if N.eqb sep 44
                              then members fuel rest4 (set_prop key v acc)
                              else if N.eqb sep RBRACE
                              then Some (JObj (set_prop key v acc), rest4)
                              else None
                          | [] => None
                          end
                      | None => None
                      end
                    else None
                | [] => None
                end
            | None => None
            end
          else None
      | [] => None
      end
  end
with elements (fuel : nat) (s : text) (acc : list json)
    : option (json * text) :=
  match fuel with
  | O => None
  | S fuel =>
      match value fuel s with
      | Some (v, rest) =>
          match skip_ws rest with
          | sep :: rest' =>
              if N.eqb sep 44 then elements fuel rest' (acc ++ [v])
              else if N.eqb sep 93 then Some (JArr (acc ++ [v]), rest')
              else None
          | [] => None
          end
      | None => None
      end
  end.

Definition parse (s : text) : option json :=
  match value (2 * length s + 2) s with
  | Some (v, rest) =>
      match skip_ws rest with
      | [] => Some v
      | _ :: _ => None
      end
  | None => None
  end.

(** [encodeURIComponent] on texts of ASCII code units: the unreserved
    ones stay, the others are written as a percent sign and two
    hexadecimal digits. A text with a code unit above 127 is outside what
    it encodes. *)
Definition unreserved (c : code_unit) : bool :=
  (N.leb 48 c && N.leb c 57) || (N.leb 65 c && N.leb c 90)
  || (N.leb 97 c && N.leb c 122)
  || bool_decide (c ∈ [45; 95; 46; 33; 126; 42; 39; 40; 41]).

Definition hex_digit (n : N) : code_unit :=
  if N.ltb n 10 then 48 + n else 55 + n.

Fixpoint encode (s : text) : option text :=
  match s with
  | [] => Some []
  | c :: rest =>
      match encode rest with
      | None => None
      | Some r =>
          if unreserved c then Some (c :: r)
          else if N.ltb c 128
          then Some (37 :: hex_digit (c / 16) :: hex_digit (c mod 16) :: r)
          else None
      end
  end.

End Sample.

(** Two frames that differ at most in the text still unconsumed. *)
Definition same_output (f g : frame) : Prop :=
  assistantResponse f = assistantResponse g
  /\ refs f = refs g /\ writes f = writes g.

(** ** Vocabulary of the specification *)

Definition is_quote (c : code_unit) : bool :=
  N.eqb c QUOTE || N.eqb c APOSTROPHE.

Fixpoint drop_leading_quotes (s : text) : text :=
  match s with
  | c :: rest => if is_quote c then drop_leading_quotes rest else s
  | [] => []
  end.

(** Trimming as the specification words it: only the quote characters
    that surround the text go. *)
Definition trim_surrounding_quotes (s : text) : text :=
  reverse (drop_leading_quotes (reverse (drop_leading_quotes s))).

(** A source: what the search call gives for one result. *)
Record Source := { title : text; url : text }.

Definition is_source (s : Source) (v : json) : Prop :=
  member "title" v = Some (JStr (title s))
  /\ member "url" v = Some (JStr (url s)).

(** The data field of a search response is missing, or is not an array,
    or is an empty array. *)
Definition no_results (searchResponse : json) : bool :=
  match chain (member "data") (Some searchResponse) with
  | None => true
  | Some (JArr []) => true
  | Some (JArr (_ :: _)) => false
  | Some _ => true
  end.

(** A read that succeeded with the non-empty content [c]. *)
Definition readable (result : settled) (c : text) : Prop :=
  exists value,
    result = Fulfilled value /\ truthy (Some value) = true
    /\ read_content value = JStr c /\ c <> [].

(** A read that failed, or gave nothing, or gave an empty content. *)
Definition unreadable (result : settled) : Prop :=
  match result with
  | Rejected _ => True
  | Fulfilled value =>
      truthy (Some value) && truthy (Some (read_content value)) = false
  end.

(** ** Sample runs *)

(** A chat completion whose first choice has the given content. *)
Definition completion (s : text) : json :=
  JObj [(lit "choices",
         JArr [JObj [(lit "message", JObj [(lit "content", JStr s)])]])].

Definition source_object (t u : string) : json :=
  JObj [(lit "title", JStr (lit t)); (lit "url", JStr (lit u))].

Definition source_record (t u : string) : Source :=
  {| title := lit t; url := lit u |}.

Definition five_sources : list json :=
  [ source_object "One" "https://a.example/1";
    source_object "Two" "https://a.example/2";
    source_object "Three" "https://a.example/3";
    source_object "Four" "https://a.example/4";
    source_object "Five" "https://a.example/5" ].

Definition five_records : list Source :=
  [ source_record "One" "https://a.example/1";
    source_record "Two" "https://a.example/2";
    source_record "Three" "https://a.example/3";
    source_record "Four" "https://a.example/4";
    source_record "Five" "https://a.example/5" ].

Definition page_of (c : string) : settled :=
  Fulfilled (JObj [(lit "data", JObj [(lit "content", JStr (lit c))])]).

(** The optimizer is unreachable; the search gives [data]; the reads at
    the positions 1 and 3 (the second and the fourth) are rejected when
    [some_readable], all of them otherwise; the answer stream is empty. *)
Definition sample_network (data : json) (some_readable : bool) : network :=
  {| on_chat := fun _ => Rejected (lit "offline");
     on_search := fun _ => Fulfilled (JObj [(lit "data", data)]);
     on_read := fun i _ =>
       if some_readable && negb (Nat.eqb i 1 || Nat.eqb i 3)
       then page_of "Page text" else Rejected (lit "timeout");
     on_stream := fun _ => Body Done |}.

(** The scenario of the specification: the optimizer rewrites the
    question, the search gives five sources, every read succeeds, and the
    answer comes as three objects and a stop object, in two chunks. *)
Definition scenario_network : network :=
  {| on_chat := fun _ =>
       Fulfilled (completion (lit "health effects of coffee consumption"));
     on_search := fun _ => Fulfilled (JObj [(lit "data", JArr five_sources)]);
     on_read := fun _ _ => page_of "Page text";
     on_stream := fun _ =>
       Body
         (Chunk
            (doc "{`choices`:[{`delta`:{`content`:`Coffee `}}]}{`choices`:[{`del")
            (Chunk
               (doc "ta`:{`content`:`may have `}}]}{`choices`:[{`delta`:{`content`:`health benefits[1].`}}]}{`choices`:[{`delta`:{},`finish_reason`:`stop`}]}")
               Done)) |}.

Definition asking (q : string) : app :=
  {| view := initial; initialQuery := lit q; followUpQuery := [];
     currentTopic := []; isLoading := false; loadingStatus := [];
     sources := []; messages := [] |}.

(** A page with nothing on it, to run the model from. *)
Definition blank : app :=
  {| view := initial; initialQuery := []; followUpQuery := [];
     currentTopic := []; isLoading := false; loadingStatus := [];
     sources := []; messages := [] |}.

(** Objects of an answer stream, for the runs below: two ordinary ones, a
    stop object with a last fragment, and a stop object whose content is
    an object with a property named toString. *)
Definition hello_object : text :=
  doc "{`choices`:[{`delta`:{`content`:`Hello`}}]}".

Definition late_object : text :=
  doc "{`choices`:[{`delta`:{`content`:`, late`}}]}".

Definition stop_object : text :=
  doc "{`choices`:[{`delta`:{`content`:` world`},`finish_reason`:`stop`}]}".

Definition odd_stop_object : text :=
  doc "{`choices`:[{`delta`:{`content`:{`toString`:null}},`finish_reason`:`stop`}]}".

(** The refs and the requests issued when the search call has answered. *)
Definition searching (a : app) : app :=
  set_loadingStatus (lit "Searching for relevant sources...")
    (set_loadingStatus (lit "Optimizing search query...") (begin_submit a)).

Definition searched (a : app) (encoded : text) : list request :=
  [ChatRequest (initialQuery a); SearchRequest (JINA_SEARCH_API ++ encoded)].

(** A stream delivered as the given chunks, then ended. *)
Fixpoint chunked (chunks : list text) : reads :=
  match chunks with
  | [] => Done
  | value :: rest => Chunk value (chunked rest)
  end.

(** A stream that delivers the given chunks, after which the next read
    rejects. *)
Fixpoint interrupted (chunks : list text) (message : text) : reads :=
  match chunks with
  | [] => ReadRejects message
  | value :: rest => Chunk value (interrupted rest message)
  end.

(** Whether the inner loop takes the [return] of a stop object while
    these chunks are read, from the given frame. *)
Fixpoint stopped (JSON_parse : text -> option json) (lastMessageIndex : nat)
    (chunks : list text) (f : frame) : bool :=
  match chunks with
  | [] => false
  | value :: rest =>
      match settle JSON_parse lastMessageIndex (receive value f) with
      | (Returned, _) => true
      | (Continue, f2) => stopped JSON_parse lastMessageIndex rest f2
      end
  end.

(** * The rest of the script *)

(** ** The transport adapter ([robustFetch]) *)

(** What a [catch] receives: an instance of [Error], with its message, or
    some other value. *)
Inductive thrown :=
| AnError (message : text)
| NotAnError.

(** A response as [robustFetch] looks at it: the ok flag, the status, the
    content-type header (absent when [headers.get] gives null) and what
    reading the body as text gives. *)
Record http_response := {
  ok : bool;
  status : nat;
  content_type : option text;
  body_text : thrown + text
}.

(** What [await fetch(url, options)] does. *)
Inductive fetched :=
| Unreachable (e : thrown)
| Responds (response : http_response).

(** [hay.includes(needle)] *)
Fixpoint includes (needle hay : text) : bool :=
  bool_decide (needle `prefix_of` hay)
  || match hay with
     | [] => false
     | _ :: rest => includes needle rest
     end.

(** The [catch] of [robustFetch]: what it throws in place of what it
    caught. *)
Definition rethrow (e : thrown) : thrown :=
  match e with
  | AnError message =>
      AnError (lit "Network error or failed request: " ++ message)
  | NotAnError => AnError (lit "An unknown network error occurred.")
  end.

(** The error thrown for a response that is not ok. *)
Definition status_error (response : http_response) (errorBody : text)
    : thrown :=
  AnError (lit "API request failed with status "
           ++ decimal (status response) ++ lit ": " ++ errorBody).

Section Transport.

Variable JSON_parse : text -> option json.

(** The message of the SyntaxError raised for a body that is not JSON. *)
Variable SyntaxError_message : text -> text.

(** [response.json()] *)
Definition response_json (response : http_response) : thrown + json :=
  match body_text response with
  | inl e => inl e
  | inr t =>
      match JSON_parse t with
      | Some v => inr v
      | None => inl (AnError (SyntaxError_message t))
      end
  end.

(** [response.text()], a string being a [JStr]. *)
Definition response_text (response : http_response) : thrown + json :=
  match body_text response with
  | inl e => inl e
  | inr t => inr (JStr t)
  end.

(** [robustFetch]: [inr] is the value the promise resolves to, [inl] what
    it rejects with. The two [return]s hand over the promise of the body
    without awaiting it, so a rejection of that promise is not seen by the
    [catch]. *)
Definition robustFetch (outcome : fetched) : thrown + json :=
  match outcome with
  | Unreachable e => inl (rethrow e)
  | Responds response =>
      if ok response then
        match content_type response with
        | Some contentType =>
            if includes (lit "application/json") contentType
            then response_json response
            else response_text response
        | None => response_text response
        end
      else
        match body_text response with
        | inl e => inl (rethrow e)
        | inr errorBody => inl (rethrow (status_error response errorBody))
        end
  end.

End Transport.

(** ** Follow-up turns ([handleFollowUpSubmit]) *)

Definition set_followUpQuery (t : text) (a : app) : app :=
  {| view := view a; initialQuery := initialQuery a;
     followUpQuery := t; currentTopic := currentTopic a;
     isLoading := isLoading a; loadingStatus := loadingStatus a;
     sources := sources a; messages := messages a |}.

Definition followUpPrompt : Message :=
  {| role := system;
     content := lit "You are a helpful research assistant. Continue the conversation based on the previous context." |}.

(** [l.slice(0, -1)] *)
Definition but_last {A} (l : list A) : list A := take (length l - 1) l.

(** The [catch] of the source is never entered: [streamAiResponse] keeps
    what it catches. *)
Definition handleFollowUpSubmit (JSON_parse : text -> option json)
    (net : network) (a : app) : app * list request :=
  match trim (followUpQuery a), isLoading a with
  | _ :: _, false =>
      let userMessage := followUpQuery a in
      let a := push {| role := user; content := userMessage |} a in
      let a := set_followUpQuery [] a in
      let a := set_isLoading true a in
      let history := but_last (messages a) in
      let messageHistory :=
        followUpPrompt :: history
        ++ [{| role := user; content := userMessage |}] in
      let f := streamAiResponse JSON_parse (on_stream net messageHistory) a in
      (set_isLoading false (refs f), [StreamRequest messageHistory])
  | _, _ => (a, [])
  end.

(** ** The stored key ([saveApiKey], [onMounted]) *)

Record settings := {
  jinaApiKey : text;
  isApiKeySaved : bool;
  showSettings : bool
}.

(** The name the key is stored under. *)
Definition KEY_NAME : text := lit "jinaApiKey".

(** [saveApiKey], on the refs and the local storage, which is taken to be
    available. [accepted] tells whether the storage takes the write: when
    [setItem] raises (the quota is exceeded) the function is left there,
    with nothing changed. *)
Definition saveApiKey (accepted : bool) (s : settings)
    (localStorage : gmap (list N) (list N))
    : settings * gmap (list N) (list N) :=
  match trim (jinaApiKey s) with
  | [] => (s, localStorage)
  | _ :: _ =>
      if accepted then
        ({| jinaApiKey := jinaApiKey s; isApiKeySaved := true;
            showSettings := false |},
         <[KEY_NAME := trim (jinaApiKey s)]> localStorage)
      else (s, localStorage)
  end.

(** The [onMounted] hook: an absent or empty item is not taken. *)
Definition onMounted (s : settings) (localStorage : gmap (list N) (list N))
    : settings :=
  match localStorage !! KEY_NAME with
  | Some (c :: savedKey) =>
      {| jinaApiKey := c :: savedKey; isApiKeySaved := true;
         showSettings := showSettings s |}
  | _ => s
  end.

(** The refs as the script declares them. *)
Definition first_visit : settings :=
  {| jinaApiKey := []; isApiKeySaved := false; showSettings := false |}.

(** ** The resizable panel *)

(** The width, the flag, whether the template ref holds its element, and
    whether the document carries the two listeners. *)
Record panel := {
  sidebarWidth : Q;
  isResizing : bool;
  mainContentEl : bool;
  mousemove_listener : bool;
  mouseup_listener : bool
}.

Definition handleMouseDown (p : panel) : panel :=
  {| sidebarWidth := sidebarWidth p; isResizing := true;
     mainContentEl := mainContentEl p;
     mousemove_listener := true; mouseup_listener := true |}.

(** 60 is the width of the icon bar. *)
Definition handleMouseMove (clientX : Q) (p : panel) : panel :=
  if isResizing p && mainContentEl p then
    let newWidth := (clientX - 60)%Q in
    {| sidebarWidth := Qmax 320 (Qmin newWidth 700);
       isResizing := isResizing p; mainContentEl := mainContentEl p;
       mousemove_listener := mousemove_listener p;
       mouseup_listener := mouseup_listener p |}
  else p.

Definition handleMouseUp (p : panel) : panel :=
  {| sidebarWidth := sidebarWidth p; isResizing := false;
     mainContentEl := mainContentEl p;
     mousemove_listener := false; mouseup_listener := false |}.

Definition onBeforeUnmount (p : panel) : panel :=
  {| sidebarWidth := sidebarWidth p; isResizing := isResizing p;
     mainContentEl := mainContentEl p;
     mousemove_listener := false; mouseup_listener := false |}.

(** What reaches the script: a press on the resizer, a move or a release
    anywhere in the document, the unmounting of the component. *)
Inductive pointer_event :=
| MouseDown
| MouseMove (clientX : Q)
| MouseUp
| BeforeUnmount.

(** A document event runs its handler only while the listener is on. *)
Definition deliver (p : panel) (ev : pointer_event) : panel :=
  match ev with
  | MouseDown => handleMouseDown p
  | MouseMove clientX =>
      if mousemove_listener p then handleMouseMove clientX p else p
  | MouseUp => if mouseup_listener p then handleMouseUp p else p
  | BeforeUnmount => onBeforeUnmount p
  end.

Definition deliver_all (p : panel) (events : list pointer_event) : panel :=
  foldl deliver p events.

(** The panel as the script declares it, the component being mounted. *)
Definition panel_start : panel :=
  {| sidebarWidth := 380; isResizing := false; mainContentEl := true;
     mousemove_listener := false; mouseup_listener := false |}.

(** ** Objects of an answer stream *)

(** [object] is a text the scanner takes whole, that parses to something
    other than null, whose delta content converts to the text [t], and
    that carries the stop mark or not, as [stop] says. *)
Definition delivers (JSON_parse : text -> option json) (stop : bool)
    (object t : text) : Prop :=
  objectEndIndex object = Some (length object)
  /\ exists parsed,
       JSON_parse object = Some parsed
       /\ parsed <> JNull
       /\ ToString (delta_content parsed) = Some t
       /\ is_stop (finish_reason parsed) = stop.

(** The refs of a run of [streamAiResponse] started on the page [a]: the
    page with one more message, the assistant's, holding the answer
    accumulated so far. *)
Definition pushed (a : app) (f : frame) : Prop :=
  refs f = push {| role := assistant; content := assistantResponse f |} a.

(** ** Evidence, source by source *)

(** What one source contributes: its block when its read gave the content
    [c], nothing otherwise. *)
Definition evidence_block (ordinal : nat) (s : Source)
    (content : option text) : text :=
  match content with
  | Some c => source_block ordinal (title s) (url s) c
  | None => []
  end.

(** The contributions of the sources, in their order, numbered from
    [ordinal] on. *)
Fixpoint evidence (ordinal : nat) (srcs : list Source)
    (contents : list (option text)) : text :=
  match srcs, contents with
  | s :: srcs', c :: contents' =>
      evidence_block ordinal s c ++ evidence (S ordinal) srcs' contents'
  | _, _ => []
  end.

(** A settled read against what it gave: the content [c], or nothing. *)
Definition read_outcome (result : settled) (content : option text) : Prop :=
  match content with
  | Some c => readable result c
  | None => unreadable result
  end.

(** ** What the visitor does with the key *)

(** Typing in the key field, submitting the form (the storage taking the
    write or not), opening the settings, loading the page anew. *)
Inductive key_action :=
| TypeKey (k : text)
| SubmitKey (accepted : bool)
| OpenSettings
| Reload.

Definition key_step (st : settings * gmap (list N) (list N))
    (act : key_action) : settings * gmap (list N) (list N) :=
  match act with
  | TypeKey k =>
      ({| jinaApiKey := k; isApiKeySaved := isApiKeySaved st.1;
          showSettings := showSettings st.1 |}, st.2)
  | SubmitKey accepted => saveApiKey accepted st.1 st.2
  | OpenSettings =>
      ({| jinaApiKey := jinaApiKey st.1;
          isApiKeySaved := isApiKeySaved st.1; showSettings := true |}, st.2)
  | Reload => (onMounted first_visit st.2, st.2)
  end.

(** What holds of the refs and the storage after anything the visitor
    does: a key that counts as saved is in the storage, and is not
    empty. *)
Definition key_kept (st : settings * gmap (list N) (list N)) : Prop :=
  isApiKeySaved st.1 = true ->
  exists k, st.2 !! KEY_NAME = Some k /\ k <> [].

(** The bounds the script gives to the width of the sidebar. *)
Definition width_in_bounds (p : panel) : Prop :=
  (320 <= sidebarWidth p)%Q /\ (sidebarWidth p <= 700)%Q.

(** The two document listeners are on together or off together. *)
Definition listeners_paired (p : panel) : Prop :=
  mousemove_listener p = mouseup_listener p.

(** A text the scanner takes whole, against what the loop does with it:
    it applies the delta [t], or it drops the candidate because it does not
    parse, parses to null, or has a content that cannot be converted. *)
Definition handled (JSON_parse : text -> option json)
    (object : text) (outcome : option text) : Prop :=
  match outcome with
  | Some t => delivers JSON_parse false object t
  | None =>
      objectEndIndex object = Some (length object)
      /\ match JSON_parse object with
         | None | Some JNull => True
         | Some parsed => ToString (delta_content parsed) = None
         end
  end.

(** * Properties *)

(** ** The boundary scanner *)

Example scan_two :
  objectEndIndex (doc "{`a`:{`b`:`}`}}{`c`:1}") = Some 15%nat.
Proof. reflexivity. Qed.

Example scan_partial : objectEndIndex (doc "{`a`:{`b`:`}`}") = None.
Proof. reflexivity. Qed.

Lemma scan_bounds prev i st rest e :
  scan prev i st rest = Some e -> (i < e <= i + length rest)%nat.
Proof.
  revert prev i st. induction rest as [|char rest IH]; intros prev i st; simpl.
  - discriminate.
  - destruct (scan_step prev char st) as [st'|[]].
    + intros H. apply IH in H. lia.
    + intros [= <-]. lia.
Qed.

(** What the scanner finds in a buffer it still finds, at the same place,
    once more text has arrived. *)
Lemma scan_app prev i st rest more e :
  scan prev i st rest = Some e -> scan prev i st (rest ++ more) = Some e.
Proof.
  revert prev i st. induction rest as [|char rest IH]; intros prev i st; simpl.
  - discriminate.
  - destruct (scan_step prev char st) as [st'|[]]; [apply IH | done].
Qed.

Lemma objectEndIndex_bounds b e :
  objectEndIndex b = Some e -> (0 < e <= length b)%nat.
Proof. intros H. apply scan_bounds in H. lia. Qed.

Lemma objectEndIndex_app b more e :
  objectEndIndex b = Some e -> objectEndIndex (b ++ more) = Some e.
Proof. apply scan_app. Qed.

Lemma scan_step_escaped_quote st :
  scan_step (Some BACKSLASH) QUOTE st = inl st.
Proof. destruct st as [n []]; reflexivity. Qed.

Lemma scan_step_backslash prev st : scan_step prev BACKSLASH st = inl st.
Proof. destruct st as [n []]; reflexivity. Qed.

(** C10. The scanner takes a quote for an escaped one whenever the code
    unit just before it is a backslash, whatever came earlier: the
    sequence backslash, backslash, quote leaves its state as it was. So the
    one-object document whose string value is x followed by a backslash
    (written with an escaped backslash before the closing quote) is read by
    the JSON reader, and the scanner reports no object end in it: at the
    end of the buffer it is still inside a string, one brace deep. *)
Theorem C10_escaped_backslash_hides_the_closing_quote :
  toggles (Some BACKSLASH) QUOTE = false
  /\ (forall prev i st rest,
        scan prev i st (BACKSLASH :: BACKSLASH :: QUOTE :: rest)
        = scan (Some QUOTE) (3 + i) st rest)
  /\ let buffer := doc "{`a`:`x\\`}" in
     buffer = doc "{`a`:`x" ++ [BACKSLASH; BACKSLASH; QUOTE; RBRACE]
     /\ Sample.parse buffer = Some (JObj [(lit "a", JStr (lit "x\"))])
     /\ objectEndIndex buffer = None
     /\ scan_end None scan_start buffer
        = Some {| openBraces := 1; inString := true |}.
Proof.
  split; [reflexivity|]. split.
  - intros prev i st rest. simpl scan.
    rewrite !scan_step_backslash, scan_step_escaped_quote. reflexivity.
  - repeat split; vm_compute; reflexivity.
Qed.

(** ** The extraction loop *)

Section Extraction.

Variable JSON_parse : text -> option json.
Variable lastMessageIndex : nat.

Local Abbreviation try_object' := (try_object JSON_parse lastMessageIndex).
Local Abbreviation extract' := (extract JSON_parse lastMessageIndex).
Local Abbreviation settle' := (settle JSON_parse lastMessageIndex).
Local Abbreviation pump' := (pump JSON_parse lastMessageIndex).
Local Abbreviation publish' := (publish lastMessageIndex).

Lemma store_accumulate t f :
  store lastMessageIndex (accumulate t f)
  = match messages (refs f) !! lastMessageIndex with
    | Some _ => Some (publish' t f)
    | None => None
    end.
Proof. reflexivity. Qed.

(** The three ways out of the [try] block: nothing done; the answer
    extended but not stored, for want of a message to store it in; the
    answer extended and stored. *)
Lemma try_object_cases jsonStr f :
  try_object' jsonStr f = (Continue, f)
  \/ (exists t,
        try_object' jsonStr f = (Continue, accumulate t f)
        /\ messages (refs f) !! lastMessageIndex = None)
  \/ (exists t fl,
        try_object' jsonStr f = (fl, publish' t f)
        /\ is_Some (messages (refs f) !! lastMessageIndex)).
Proof.
  unfold try_object.
  destruct (JSON_parse jsonStr) as [parsed|]; [|by left].
  destruct (ToString (delta_content parsed)) as [t|] eqn:Ht.
  - rewrite store_accumulate.
    destruct (messages (refs f) !! lastMessageIndex) as [m|] eqn:Hm.
    + destruct parsed; try (by left); right; right; exists t;
        destruct (is_stop _); eexists; by eauto.
    + destruct parsed; try (by left); right; left; by exists t.
  - left. by destruct parsed.
Qed.

Lemma try_object_buffer jsonStr f :
  buffer (try_object' jsonStr f).2 = buffer f.
Proof.
  destruct (try_object_cases jsonStr f)
    as [->|[(t & -> & _)|(t & fl & -> & _)]]; reflexivity.
Qed.

(** The [try] block does not look at the buffer. *)
Lemma try_object_receive jsonStr f more :
  try_object' jsonStr (receive more f)
  = ((try_object' jsonStr f).1, receive more (try_object' jsonStr f).2).
Proof.
  unfold try_object.
  destruct (JSON_parse jsonStr) as [parsed|]; [|reflexivity].
  destruct (ToString (delta_content parsed)) as [t|];
    [|by destruct parsed].
  rewrite !store_accumulate. simpl refs.
  destruct (messages (refs f) !! lastMessageIndex);
    destruct parsed; try reflexivity; by destruct (is_stop _).
Qed.

Lemma consume_receive e f more :
  (e <= length (buffer f))%nat ->
  consume e (receive more f) = receive more (consume e f).
Proof.
  intros He. unfold consume, receive; simpl.
  by rewrite drop_app_le.
Qed.

Lemma receive_nil f : receive [] f = f.
Proof. destruct f; unfold receive; simpl. by rewrite app_nil_r. Qed.

Lemma receive_app f c more :
  receive (c ++ more) f = receive more (receive c f).
Proof. unfold receive; simpl. by rewrite app_assoc. Qed.

(** The turns allowed never run out: any number of them not below the
    length of the buffer gives the same result. *)
Lemma extract_enough n m f :
  (length (buffer f) <= n)%nat -> (length (buffer f) <= m)%nat ->
  extract' n f = extract' m f.
Proof.
  revert m f. induction n as [|n IH]; intros m f Hn Hm.
  - destruct (buffer f) eqn:Hb; [|simpl in Hn; lia].
    destruct m; simpl; by rewrite ?Hb.
  - destruct m as [|m].
    + destruct (buffer f) eqn:Hb; [|simpl in Hm; lia].
      simpl; by rewrite Hb.
    + simpl. destruct (buffer f) as [|c b] eqn:Hb; [done|].
      destruct (objectEndIndex (c :: b)) as [e|] eqn:He; [|done].
      apply objectEndIndex_bounds in He as Hbound.
      pose proof (try_object_buffer (take e (c :: b)) (consume e f)) as Hbuf.
      destruct (try_object' _ _) as [[] f']; [|done].
      simpl in Hbuf. rewrite Hb in Hbuf.
      apply IH; rewrite Hbuf, length_drop; simpl in *; lia.
Qed.

Lemma settle_enough n f :
  (length (buffer f) <= n)%nat -> extract' n f = settle' f.
Proof. intros. by apply extract_enough. Qed.

(** Text arriving behind a buffer does not change what the loop does
    with the buffer: it only goes on from where the loop stopped. *)
Lemma extract_receive n f more :
  (length (buffer f) <= n)%nat ->
  match extract' n f with
  | (Returned, f') => settle' (receive more f) = (Returned, receive more f')
  | (Continue, f') => settle' (receive more f) = settle' (receive more f')
  end.
Proof.
  revert f. induction n as [|n IH]; intros f Hn.
  - done.
  - simpl. destruct (buffer f) as [|c b] eqn:Hb; [done|].
    destruct (objectEndIndex (c :: b)) as [e|] eqn:He; [|done].
    apply objectEndIndex_bounds in He as Hbound.
    pose proof (try_object_buffer (take e (c :: b)) (consume e f)) as Hbuf.
    assert (Hstep : settle' (receive more f)
              = match try_object' (take e (c :: b)) (consume e f) with
                | (Returned, f') => (Returned, receive more f')
                | (Continue, f') => settle' (receive more f')
                end).
    { unfold settle' at 1. simpl buffer. rewrite Hb.
      destruct (length ((c :: b) ++ more)) as [|k] eqn:Hk; [done|].
      simpl extract' at 1. simpl buffer. rewrite Hb.
      change ((c :: b) ++ more) with (c :: (b ++ more)) at 1.
      cbv iota.
      rewrite (objectEndIndex_app _ more _ He).
      rewrite take_app_le by lia.
      rewrite <- Hb, consume_receive by (rewrite Hb; lia).
      rewrite try_object_receive.
      rewrite Hb in *.
      destruct (try_object' _ _) as [[] f']; simpl; [|done].
      apply settle_enough. simpl in Hbuf |- *.
      rewrite Hbuf, Hb, length_app, length_drop.
      rewrite length_app in Hk. simpl in *. lia. }
    rewrite Hstep.
    destruct (try_object' _ _) as [[] f']; [|done].
    apply IH. simpl in Hbuf. rewrite Hbuf, Hb, length_drop.
    simpl in *. lia.
Qed.

(** When the loop stops for lack of a complete object, running it again
    on what it left changes nothing. *)
Lemma extract_settled n f f' :
  (length (buffer f) <= n)%nat ->
  extract' n f = (Continue, f') -> settle' f' = (Continue, f').
Proof.
  revert f. induction n as [|n IH]; intros f Hn.
  - intros [= <-]. destruct (buffer f) eqn:Hb; [|simpl in Hn; lia].
    unfold settle'. by rewrite Hb.
  - simpl. destruct (buffer f) as [|c b] eqn:Hb.
    + intros [= <-]. unfold settle'. by rewrite Hb.
    + destruct (objectEndIndex (c :: b)) as [e|] eqn:He.
      * apply objectEndIndex_bounds in He as Hbound.
        pose proof (try_object_buffer (take e (c :: b)) (consume e f))
          as Hbuf.
        destruct (try_object' _ _) as [[] g]; [|done].
        apply IH. simpl in Hbuf. rewrite Hbuf, Hb, length_drop.
        simpl in *. lia.
      * intros [= <-]. unfold settle'. rewrite Hb. simpl.
        by rewrite Hb, He.
Qed.

(** Feeding chunks one by one, from a frame the loop has nothing to do
    with, or their concatenation at once. *)
Lemma pump_chunked chunks f :
  settle' f = (Continue, f) ->
  same_output (pump' (chunked chunks) f).1
              (pump' (chunked [concat chunks]) f).1
  /\ (pump' (chunked chunks) f).2 = None
  /\ (pump' (chunked [concat chunks]) f).2 = None.
Proof.
  assert (Hone : forall w g, pump' (chunked [w]) g
                             = ((settle' (receive w g)).2, None)).
  { intros w g. simpl. fold (settle' (receive w g)).
    by destruct (settle' (receive w g)) as [[] ?]. }
  revert f. induction chunks as [|c cs IH]; intros f Hf.
  - rewrite Hone. simpl. by rewrite receive_nil, Hf.
  - rewrite Hone. simpl concat. rewrite receive_app. simpl.
    fold (settle' (receive c f)).
    pose proof (extract_receive (length (buffer (receive c f)))
                  (receive c f) (concat cs) (le_n _)) as Hmore.
    fold (settle' (receive c f)) in Hmore.
    destruct (settle' (receive c f)) as [[] f2] eqn:Hs.
    + rewrite Hmore.
      apply extract_settled in Hs; [|done].
      specialize (IH f2 Hs). by rewrite Hone in IH.
    + rewrite Hmore. simpl. by repeat split.
Qed.

End Extraction.

(** C1. Whatever text the stream carries, in particular a sequence of
    complete JSON objects, and however it is cut into chunks (inside a
    string, inside an escape, one code unit at a time), reading the chunks
    one by one leaves the same messages, the same accumulated answer and
    the same successive contents as reading the concatenation as a single
    chunk. *)
Theorem C1_chunk_boundaries_do_not_matter
    (JSON_parse : text -> option json) (chunks : list text) (a : app) :
  let split := streamAiResponse JSON_parse (Body (chunked chunks)) a in
  let whole :=
    streamAiResponse JSON_parse (Body (chunked [concat chunks])) a in
  assistantResponse split = assistantResponse whole
  /\ messages (refs split) = messages (refs whole)
  /\ refs split = refs whole
  /\ writes split = writes whole.
Proof.
  intros split whole. subst split whole. unfold streamAiResponse, attempt.
  set (f0 := opening a). set (idx := (length (messages (refs f0)) - 1)%nat).
  destruct (pump_chunked JSON_parse idx chunks f0 eq_refl)
    as ((Hr & Hrefs & Hw) & Hs & Hwhole).
  destruct (pump JSON_parse idx (chunked chunks) f0) as [f1 r1].
  destruct (pump JSON_parse idx (chunked [concat chunks]) f0) as [g1 r2].
  simpl in *. subst r1 r2. simpl. by rewrite Hr, Hrefs, Hw.
Qed.

(** ** The stop signal *)

Section Stop.

Variable JSON_parse : text -> option json.
Variable lastMessageIndex : nat.

Local Abbreviation try_object' := (try_object JSON_parse lastMessageIndex).
Local Abbreviation extract' := (extract JSON_parse lastMessageIndex).
Local Abbreviation settle' := (settle JSON_parse lastMessageIndex).
Local Abbreviation pump' := (pump JSON_parse lastMessageIndex).
Local Abbreviation publish' := (publish lastMessageIndex).
Local Abbreviation at_loop_head' :=
  (at_loop_head JSON_parse lastMessageIndex).

Lemma try_object_stop jsonStr parsed t f :
  (lastMessageIndex < length (messages (refs f)))%nat ->
  JSON_parse jsonStr = Some parsed ->
  is_stop (finish_reason parsed) = true ->
  ToString (delta_content parsed) = Some t ->
  try_object' jsonStr f = (Returned, publish' t f).
Proof.
  intros Hi Hp Hstop Ht. unfold try_object. rewrite Hp, Ht.
  rewrite store_accumulate.
  destruct (lookup_lt_is_Some_2 _ _ Hi) as [m ->].
  destruct parsed; try discriminate Hstop; by rewrite Hstop.
Qed.

Lemma try_object_messages jsonStr f :
  length (messages (refs (try_object' jsonStr f).2))
  = length (messages (refs f)).
Proof.
  destruct (try_object_cases JSON_parse lastMessageIndex jsonStr f)
    as [->|[(t & -> & _)|(t & fl & -> & _)]]; try reflexivity.
  simpl. apply length_alter.
Qed.

(** The messages are as many at every turn of the loop. *)
Lemma head_messages f g :
  at_loop_head' f g ->
  length (messages (refs g)) = length (messages (refs f)).
Proof.
  induction 1 as [f|f e f' g He Htry _ IH]; [done|]. rewrite IH.
  pose proof (try_object_messages (take e (buffer f)) (consume e f)) as H.
  by rewrite Htry in H.
Qed.

(** The loop started on [f] does, from the turn it reaches with [g] on,
    what it would do started on [g]. *)
Lemma head_extract f g n :
  at_loop_head' f g -> (length (buffer f) <= n)%nat ->
  extract' n f = settle' g.
Proof.
  intros Hhead. revert n.
  induction Hhead as [f|f e f' g He Htry _ IH]; intros n Hn.
  - by apply settle_enough.
  - apply objectEndIndex_bounds in He as Hbound.
    pose proof (try_object_buffer JSON_parse lastMessageIndex
                  (take e (buffer f)) (consume e f)) as Hbuf.
    rewrite Htry in Hbuf. simpl in Hbuf.
    destruct n as [|n]; [lia|]. simpl.
    destruct (buffer f) as [|c b] eqn:Hb; [simpl in Hbound; lia|].
    rewrite He, Htry. apply IH.
    rewrite Hbuf, length_drop. simpl in *. lia.
Qed.

(** A stop object that the [try] block gets through ends the function,
    at whatever turn of the inner loop it is extracted. *)
Lemma stop_object_returns value rest f g e parsed t :
  (lastMessageIndex < length (messages (refs f)))%nat ->
  at_loop_head' (receive value f) g ->
  objectEndIndex (buffer g) = Some e ->
  JSON_parse (take e (buffer g)) = Some parsed ->
  is_stop (finish_reason parsed) = true ->
  ToString (delta_content parsed) = Some t ->
  pump' (Chunk value rest) f = (publish' t (consume e g), None).
Proof.
  intros Hi Hhead He Hp Hstop Ht. simpl. unfold settle at 1.
  rewrite (head_extract _ g _ Hhead) by done.
  apply objectEndIndex_bounds in He as Hbound.
  apply head_messages in Hhead. simpl in Hhead.
  unfold settle. destruct (length (buffer g)) as [|n] eqn:Hlen; [lia|].
  simpl. destruct (buffer g) as [|c b] eqn:Hb; [done|].
  rewrite He. rewrite <- Hb in *.
  rewrite (try_object_stop _ parsed t); [done| |done..].
  simpl. by rewrite Hhead.
Qed.

Lemma delta_fragment_text parsed s :
  delta_fragment parsed = Some (JStr s) ->
  ToString (delta_content parsed) = Some s.
Proof.
  unfold delta_content. intros ->. simpl.
  case_bool_decide; simpl; congruence.
Qed.

End Stop.

(** A content that is absent, null, a string, a number or a boolean, as
    the objects of a completion stream carry it, always converts to
    text. *)
Lemma primitive_content_converts parsed :
  match delta_fragment parsed with
  | None | Some (JNull | JBool _ | JNum _ | JStr _) => True
  | Some (JArr _ | JObj _) => False
  end ->
  exists t, ToString (delta_content parsed) = Some t.
Proof.
  unfold delta_content.
  destruct (delta_fragment parsed) as [[|[]|repr|s| |]|]; try done;
    intros _; simpl; try (by eexists);
    by destruct (negb _); eexists.
Qed.

(** The stop mark where the [try] block reaches its test. In a run (the
    open message is there), when the object extracted at some turn of the
    inner loop parses, its first choice carries the finish reason stop,
    and its delta content is absent, falsy or converts to text without
    raising, the function stores that text and returns without an error:
    the text that followed the object stays in the buffer, and the rest of
    the stream is not read. *)
Theorem stop_ends_the_run
    (JSON_parse : text -> option json) (lastMessageIndex : nat)
    (value : text) (rest : reads) (f g : frame) (e : nat)
    (parsed : json) (t : text) :
  (lastMessageIndex < length (messages (refs f)))%nat ->
  at_loop_head JSON_parse lastMessageIndex (receive value f) g ->
  objectEndIndex (buffer g) = Some e ->
  JSON_parse (take e (buffer g)) = Some parsed ->
  is_stop (finish_reason parsed) = true ->
  ToString (delta_content parsed) = Some t ->
  pump JSON_parse lastMessageIndex (Chunk value rest) f
  = (publish lastMessageIndex t (consume e g), None)
  /\ buffer (publish lastMessageIndex t (consume e g)) = drop e (buffer g).
Proof.
  intros. split; [by eapply stop_object_returns | reflexivity].
Qed.

(** A run in which the stop object comes second in its chunk: the answer is
    Hello world, the object after it stays in the buffer and the next chunk
    is never read. *)
Lemma stop_ends_the_run_sample :
  let value := hello_object ++ stop_object ++ late_object in
  let run :=
    pump Sample.parse 0 (Chunk value (Chunk late_object Done))
      (opening blank) in
  content_at 0 (refs run.1) = lit "Hello world"
  /\ buffer run.1 = late_object
  /\ run.2 = None.
Proof.
  intros value run. subst run.
  edestruct (stop_ends_the_run Sample.parse 0 value
               (Chunk late_object Done) (opening blank)) as [-> _].
  - simpl. lia.
  - eapply head_next; [vm_compute; reflexivity | vm_compute; reflexivity |].
    apply head_here.
  - vm_compute. reflexivity.
  - vm_compute. reflexivity.
  - vm_compute. reflexivity.
  - vm_compute. reflexivity.
  - vm_compute. repeat split.
Defined.

(** C7, where the code departs from it. The first object of the chunk
    parses and its first choice carries the finish reason stop, but its
    content is an object with an own property named toString: appending
    it to the answer raises before the test of the finish reason is
    reached, the inner [catch] (written for objects that do not parse)
    drops the object together with its stop mark, and the loop goes on:
    the object behind it is processed and its text published. The same
    stream with a stop object whose content is a string ends at that
    object, and the object behind it stays in the buffer. *)
Lemma C7_stop_dropped_with_its_object :
  let value := odd_stop_object ++ late_object in
  let run := streamAiResponse Sample.parse (Body (Chunk value Done)) blank in
  let expected :=
    streamAiResponse Sample.parse
      (Body (Chunk (stop_object ++ late_object) Done)) blank in
  objectEndIndex value = Some (length odd_stop_object)
  /\ (exists parsed,
        Sample.parse (take (length odd_stop_object) value) = Some parsed
        /\ is_stop (finish_reason parsed) = true
        /\ ToString (delta_content parsed) = None)
  /\ content_at 0 (refs run) = lit ", late"
  /\ buffer run = []
  /\ content_at 0 (refs expected) = lit " world"
  /\ buffer expected = late_object.
Proof.
  split; [vm_compute; reflexivity|]. split.
  - eexists. split; [vm_compute; reflexivity|]. split; vm_compute; reflexivity.
  - repeat split; vm_compute; reflexivity.
Qed.

(** ** What is published *)

Lemma content_at_set_content i c a :
  (i < length (messages a))%nat -> content_at i (set_content i c a) = c.
Proof.
  intros Hi. unfold content_at, set_content; simpl.
  rewrite list_lookup_alter_eq.
  destruct (lookup_lt_is_Some_2 _ _ Hi) as [m ->]. reflexivity.
Qed.

Lemma monotone_snoc ws v w :
  monotone ws -> last ws = Some v -> v `prefix_of` w -> monotone (ws ++ [w]).
Proof.
  intros Hm Hlast Hvw i x y Hx Hy.
  assert (Hi : (S i < length (ws ++ [w]))%nat) by by eapply lookup_lt_Some.
  rewrite length_app in Hi. simpl in Hi.
  rewrite lookup_app_l in Hx by lia.
  destruct (decide (S i < length ws)%nat) as [Hlt|Hge].
  - rewrite lookup_app_l in Hy by lia. by eapply Hm.
  - assert (S i = length ws) as Hi' by lia.
    rewrite lookup_app_r, Hi', Nat.sub_diag in Hy by lia.
    injection Hy as <-.
    rewrite last_lookup in Hlast.
    replace (Init.Nat.pred (length ws)) with i in Hlast by lia.
    congruence.
Qed.

Section Published.

Variable JSON_parse : text -> option json.
Variable lastMessageIndex : nat.

Local Abbreviation try_object' := (try_object JSON_parse lastMessageIndex).
Local Abbreviation extract' := (extract JSON_parse lastMessageIndex).
Local Abbreviation pump' := (pump JSON_parse lastMessageIndex).
Local Abbreviation publish' := (publish lastMessageIndex).
Local Abbreviation in_step' := (in_step lastMessageIndex).
Local Abbreviation open_message' := (open_message lastMessageIndex).

Lemma publish_open t f : open_message' f -> open_message' (publish' t f).
Proof.
  intros [Hi Hc]. split; simpl.
  - by rewrite length_alter.
  - by apply content_at_set_content.
Qed.

Lemma publish_in_step t f : in_step' f -> in_step' (publish' t f).
Proof.
  intros (Hopen & Hhead & Hlast & Hmono). split; [by apply publish_open|].
  repeat split; simpl.
  - by rewrite head_app, Hhead.
  - by rewrite last_snoc.
  - eapply monotone_snoc; [done..|]. by exists t.
Qed.

Lemma try_object_in_step jsonStr f :
  in_step' f -> in_step' (try_object' jsonStr f).2.
Proof.
  intros H.
  destruct (try_object_cases JSON_parse lastMessageIndex jsonStr f)
    as [->|[(t & -> & Hnone)|(t & fl & -> & _)]]; [done| |].
  - destruct H as ([Hi _] & _).
    apply lookup_lt_is_Some_2 in Hi as [m Hm]. congruence.
  - by apply publish_in_step.
Qed.

Lemma try_object_open jsonStr f :
  open_message' f -> open_message' (try_object' jsonStr f).2.
Proof.
  intros H.
  destruct (try_object_cases JSON_parse lastMessageIndex jsonStr f)
    as [->|[(t & -> & Hnone)|(t & fl & -> & _)]]; [done| |].
  - destruct H as [Hi _].
    apply lookup_lt_is_Some_2 in Hi as [m Hm]. congruence.
  - by apply publish_open.
Qed.

Lemma head_open f g :
  at_loop_head JSON_parse lastMessageIndex f g ->
  open_message' f -> open_message' g.
Proof.
  induction 1 as [f|f e f' g He Htry _ IH]; [done|]. intros Hf. apply IH.
  pose proof (try_object_open (take e (buffer f)) (consume e f) Hf) as H.
  by rewrite Htry in H.
Qed.

Lemma extract_in_step n f : in_step' f -> in_step' (extract' n f).2.
Proof.
  revert f. induction n as [|n IH]; intros f Hf; simpl; [done|].
  destruct (buffer f) as [|c b]; [done|].
  destruct (objectEndIndex (c :: b)) as [e|]; [|done].
  pose proof (try_object_in_step (take e (c :: b)) (consume e f) Hf) as H.
  destruct (try_object' _ _) as [[] f']; [by apply IH | done].
Qed.

Lemma pump_in_step body f : in_step' f -> in_step' (pump' body f).1.
Proof.
  revert f. induction body as [|value rest IH|message]; intros f Hf; simpl;
    [done| |done].
  pose proof (extract_in_step (length (buffer (receive value f)))
                (receive value f) Hf) as H.
  unfold settle. destruct (extract' _ _) as [[] f']; [by apply IH | done].
Qed.

End Published.

Lemma opening_in_step a : in_step (length (messages a)) (opening a).
Proof.
  repeat split; simpl.
  - rewrite length_app. simpl. lia.
  - unfold content_at, push; simpl.
    by rewrite lookup_app_r, Nat.sub_diag.
  - intros [|i] v w Hv Hw; discriminate.
Qed.

Lemma opening_index a :
  (length (messages (refs (opening a))) - 1)%nat = length (messages a).
Proof. simpl. rewrite length_app. simpl. lia. Qed.

Lemma attempt_in_step JSON_parse reply a :
  in_step (length (messages a))
    (attempt JSON_parse (length (messages a)) reply (opening a)).1.
Proof.
  destruct reply; simpl; try apply opening_in_step.
  apply pump_in_step, opening_in_step.
Qed.

(** C9. A stop object that carries a text fragment: the fragment is
    appended to the accumulated answer and to the content of the open
    message, that content is recorded as published, and only then does the
    function return, without an error. *)
Theorem C9_stop_object_fragment_is_published
    (JSON_parse : text -> option json) (lastMessageIndex : nat)
    (value : text) (rest : reads) (f g : frame) (e : nat)
    (parsed : json) (s : text) :
  open_message lastMessageIndex f ->
  at_loop_head JSON_parse lastMessageIndex (receive value f) g ->
  objectEndIndex (buffer g) = Some e ->
  JSON_parse (take e (buffer g)) = Some parsed ->
  is_stop (finish_reason parsed) = true ->
  delta_fragment parsed = Some (JStr s) ->
  exists g',
    pump JSON_parse lastMessageIndex (Chunk value rest) f = (g', None)
    /\ assistantResponse g' = assistantResponse g ++ s
    /\ content_at lastMessageIndex (refs g')
       = content_at lastMessageIndex (refs g) ++ s
    /\ last (writes g') = Some (content_at lastMessageIndex (refs g) ++ s).
Proof.
  intros Hf Hhead He Hp Hstop Hs.
  apply delta_fragment_text in Hs.
  destruct (head_open _ _ _ _ Hhead Hf) as [Hi Hc].
  eexists. split; [eapply stop_object_returns; by try apply Hf|].
  simpl. rewrite content_at_set_content by done.
  rewrite Hc, last_snoc. done.
Qed.

Lemma C9_stop_object_fragment_is_published_witness :
  exists g',
    pump Sample.parse 0
      (Chunk (hello_object ++ stop_object) (Chunk late_object Done))
      (opening blank) = (g', None)
    /\ assistantResponse g' = lit "Hello" ++ lit " world"
    /\ content_at 0 (refs g') = lit "Hello" ++ lit " world"
    /\ last (writes g') = Some (lit "Hello" ++ lit " world").
Proof.
  eapply (C9_stop_object_fragment_is_published Sample.parse 0
            (hello_object ++ stop_object) (Chunk late_object Done)
            (opening blank)
            (publish 0 (lit "Hello")
               (consume 43 (receive (hello_object ++ stop_object)
                              (opening blank))))
            67 _ (lit " world")).
  - split; [simpl; lia | reflexivity].
  - eapply head_next; [vm_compute; reflexivity | vm_compute; reflexivity |].
    apply head_here.
  - vm_compute. reflexivity.
  - vm_compute. reflexivity.
  - vm_compute. reflexivity.
  - vm_compute. reflexivity.
Defined.

(** The reads that come before a rejected one are processed as in a
    stream that ends there; the rejection is what the [try] block
    throws, unless a stop object has ended the function before. *)
Lemma pump_interrupted JSON_parse lastMessageIndex chunks message f :
  stopped JSON_parse lastMessageIndex chunks f = false ->
  pump JSON_parse lastMessageIndex (interrupted chunks message) f
  = ((pump JSON_parse lastMessageIndex (chunked chunks) f).1, Some message).
Proof.
  revert f. induction chunks as [|value rest IH]; intros f; simpl; [done|].
  destruct (settle _ _ _) as [[] f2]; [apply IH | done].
Qed.

Lemma pump_chunked_clean JSON_parse lastMessageIndex chunks f :
  (pump JSON_parse lastMessageIndex (chunked chunks) f).2 = None.
Proof.
  revert f. induction chunks as [|value rest IH]; intros f; simpl; [done|].
  destruct (settle _ _ _) as [[] f2]; [apply IH | done].
Qed.

(** C8. The successive contents of the open assistant message start empty
    and each extends the one before; the last of them is what the message
    holds when the function ends. A failure leaves the error note behind
    what has been accumulated: when the request is rejected, or refused
    (the response is not ok), the message holds the note alone, with the
    text of the failure; when a read of the body rejects before any stop
    object, the message holds what the chunks read so far have given,
    followed by the note. In general, whenever the [try] block throws,
    the content is the answer accumulated so far followed by the note. *)
Theorem C8_content_only_grows
    (JSON_parse : text -> option json) (reply : response) (a : app) :
  let run := streamAiResponse JSON_parse reply a in
  let lastMessageIndex := length (messages a) in
  let note (message : text) : text :=
    [LF; LF] ++ lit "**An error occurred:**" ++ [LF; LF] ++ message in
  monotone (writes run)
  /\ head (writes run) = Some []
  /\ last (writes run) = Some (content_at lastMessageIndex (refs run))
  /\ (forall message,
        reply = FetchRejects message ->
        content_at lastMessageIndex (refs run) = note message
        /\ writes run = [[]; note message])
  /\ (forall errorText,
        reply = NotOk errorText ->
        content_at lastMessageIndex (refs run)
        = note (lit "AI model request failed: " ++ errorText)
        /\ writes run
           = [[]; note (lit "AI model request failed: " ++ errorText)])
  /\ (forall chunks message,
        reply = Body (interrupted chunks message) ->
        stopped JSON_parse lastMessageIndex chunks (opening a) = false ->
        let before := streamAiResponse JSON_parse (Body (chunked chunks)) a in
        content_at lastMessageIndex (refs run)
        = content_at lastMessageIndex (refs before) ++ note message
        /\ writes run
           = writes before
             ++ [content_at lastMessageIndex (refs before) ++ note message])
  /\ forall f1 message,
       attempt JSON_parse lastMessageIndex reply (opening a)
       = (f1, Some message) ->
       content_at lastMessageIndex (refs f1) = assistantResponse f1
       /\ content_at lastMessageIndex (refs run)
          = assistantResponse f1 ++ note message
       /\ writes run = writes f1 ++ [assistantResponse f1 ++ note message].
Proof.
  intros run idx note.
  assert (Hgeneral :
    (monotone (writes run) /\ head (writes run) = Some []
     /\ last (writes run) = Some (content_at idx (refs run)))
    /\ forall f1 message,
         attempt JSON_parse idx reply (opening a) = (f1, Some message) ->
         content_at idx (refs f1) = assistantResponse f1
         /\ content_at idx (refs run) = assistantResponse f1 ++ note message
         /\ writes run = writes f1 ++ [assistantResponse f1 ++ note message]).
  { subst run. unfold streamAiResponse.
    rewrite opening_index. fold idx.
    pose proof (attempt_in_step JSON_parse reply a) as Hstep.
    fold idx in Hstep.
    destruct (attempt JSON_parse idx reply (opening a)) as [f1 thrown].
    simpl in Hstep. destruct Hstep as ((Hi & Hc) & Hhead & Hlast & Hmono).
    assert (Hnote : forall c,
      content_at idx (set_isLoading false (set_content idx c (refs f1)))
      = c).
    { intros c. apply (content_at_set_content idx c (refs f1) Hi). }
    destruct thrown as [message|]; simpl.
    - rewrite Hc. split; [split; [|split]|].
      + eapply monotone_snoc; [done..|]. by eexists.
      + by rewrite head_app, Hhead.
      + by rewrite last_snoc, Hnote.
      + intros f message' [= <- <-]. by rewrite Hnote.
    - split; [|done]. split; [done|]. split; [done|].
      by rewrite Hlast, <- Hc. }
  destruct Hgeneral as ((Hmono & Hhead & Hlast) & Hthrown).
  split; [done|]. split; [done|]. split; [done|].
  split; [|split; [|split; [|done]]].
  - intros message ->.
    destruct (Hthrown (opening a) message eq_refl) as (_ & -> & ->). done.
  - intros errorText ->.
    destruct (Hthrown (opening a) _ eq_refl) as (_ & -> & ->). done.
  - intros chunks message -> Hgo before.
    destruct (Hthrown _ message (pump_interrupted _ _ _ _ _ Hgo))
      as (Hc & -> & ->).
    subst before. unfold streamAiResponse. rewrite opening_index. fold idx.
    cbn [attempt].
    pose proof (pump_chunked_clean JSON_parse idx chunks (opening a)) as Hg.
    destruct (pump JSON_parse idx (chunked chunks) (opening a)) as [g thrown].
    simpl in Hg, Hc |- *. subst thrown. simpl.
    unfold content_at in Hc |- *. simpl. by rewrite Hc.
Qed.

(** Failures of the three kinds on a blank page: the request is rejected,
    the response is not ok, and the second read rejects after a chunk
    that gave Hello. *)
Lemma C8_content_only_grows_witness :
  let failed reply := streamAiResponse Sample.parse reply blank in
  let note (message : text) : text :=
    [LF; LF] ++ lit "**An error occurred:**" ++ [LF; LF] ++ message in
  writes (failed (FetchRejects (lit "Failed to fetch")))
  = [[]; note (lit "Failed to fetch")]
  /\ writes (failed (NotOk (lit "overloaded")))
     = [[]; note (lit "AI model request failed: overloaded")]
  /\ writes (failed (Body (Chunk hello_object
                             (ReadRejects (lit "network error")))))
     = [[]; lit "Hello"; lit "Hello" ++ note (lit "network error")].
Proof.
  intros failed note. subst failed. cbv beta. split; [|split].
  - destruct (C8_content_only_grows Sample.parse
                (FetchRejects (lit "Failed to fetch")) blank)
      as (_ & _ & _ & H & _).
    by destruct (H _ eq_refl) as [_ ->].
  - destruct (C8_content_only_grows Sample.parse
                (NotOk (lit "overloaded")) blank)
      as (_ & _ & _ & _ & H & _).
    by destruct (H _ eq_refl) as [_ ->].
  - destruct (C8_content_only_grows Sample.parse
                (Body (interrupted [hello_object] (lit "network error")))
                blank)
      as (_ & _ & _ & _ & _ & H & _).
    destruct (H [hello_object] (lit "network error") eq_refl)
      as [_ Hw]; [vm_compute; reflexivity|].
    cbn [interrupted] in Hw. rewrite Hw. vm_compute. reflexivity.
Defined.

(** ** The query optimizer *)

(** The content of the first choice's message, in a response of the
    expected shape. *)
Example completion_content_completion s :
  completion_content (completion s) = Some (JStr s).
Proof. reflexivity. Qed.

(** C3, as the code has it. From the content of the first completion's
    message the optimizer trims the surrounding white space and then takes
    out every double quote and every apostrophe, those inside the text as
    well as those around it: what it returns is the trimmed text without
    its quote characters, in the same order. *)
Theorem C3_optimizer_removes_every_quote
    (response : json) (s query : text) :
  completion_content response = Some (JStr s) ->
  trim s <> [] ->
  let optimized := optimizeQuery (Fulfilled response) query in
  optimized = strip_quotes (trim s)
  /\ (QUOTE ∉ optimized) /\ (APOSTROPHE ∉ optimized)
  /\ optimized `sublist_of` trim s
  /\ forall c, c ∈ trim s -> c <> QUOTE -> c <> APOSTROPHE -> c ∈ optimized.
Proof.
  intros Hc Hs optimized. subst optimized.
  unfold optimizeQuery, optimize_try. rewrite Hc. destruct (trim s) as [|c0 t] eqn:Ht; [done|].
  unfold strip_quotes. split; [done|]. split; [|split; [|split]].
  - rewrite list_elem_of_filter. tauto.
  - rewrite list_elem_of_filter. tauto.
  - apply sublist_filter.
  - intros c Hin Hq Ha. rewrite list_elem_of_filter. tauto.
Qed.

Lemma C3_optimizer_removes_every_quote_witness :
  optimizeQuery
    (Fulfilled (completion (lit "  'coffee's health effects' ")))
    (lit "Is coffee healthy?")
  = lit "coffees health effects".
Proof.
  destruct (C3_optimizer_removes_every_quote
              (completion (lit "  'coffee's health effects' "))
              (lit "  'coffee's health effects' ")
              (lit "Is coffee healthy?")) as [-> _].
  - reflexivity.
  - vm_compute. discriminate.
  - vm_compute. reflexivity.
Defined.

(** C3 as the specification words it fails: this completion has no quote
    around its text, so trimming the surrounding quotes would leave it as
    it is, yet the optimizer returns it without the two quotes inside. *)
Lemma C3_interior_quotes_are_removed :
  let s := lit "coffee " ++ [QUOTE] ++ lit "health" ++ [QUOTE] ++ lit " study" in
  let optimized := optimizeQuery (Fulfilled (completion s)) (lit "q") in
  trim_surrounding_quotes (trim s) = s
  /\ optimized = lit "coffee health study"
  /\ optimized <> trim_surrounding_quotes (trim s).
Proof. repeat split; vm_compute; (reflexivity || discriminate). Qed.

(** C4. When the call fails, whatever the reason, when anything else is
    raised in the [try] block, or when the content of the first
    completion's message is absent, null, empty or only white space, the
    optimizer returns the query it was given: nothing raised reaches the
    caller. *)
Theorem C4_optimizer_falls_back_to_the_query
    (reply : settled) (query : text) :
  (exists reason, reply = Rejected reason)
  \/ (exists e, optimize_try reply query = inl e)
  \/ (exists response,
        reply = Fulfilled response
        /\ (completion_content response = None
            \/ completion_content response = Some JNull
            \/ exists s, completion_content response = Some (JStr s)
                         /\ trim s = [])) ->
  optimizeQuery reply query = query.
Proof.
  intros [[reason ->]|[[e He]|(response & -> & [H|[H|(s & H & Hs)]])]];
    unfold optimizeQuery; rewrite ?He; unfold optimize_try;
    rewrite ?H, ?Hs; reflexivity.
Qed.

Lemma C4_optimizer_falls_back_to_the_query_witness :
  optimizeQuery (Rejected (lit "Network error or failed request: offline"))
    (lit "Is coffee healthy?") = lit "Is coffee healthy?"
  /\ optimizeQuery (Fulfilled (completion (lit "   ")))
       (lit "Is coffee healthy?") = lit "Is coffee healthy?".
Proof.
  split; apply C4_optimizer_falls_back_to_the_query.
  - left. eexists. reflexivity.
  - right. right. eexists. split; [reflexivity|]. right. right.
    eexists. split; [reflexivity | vm_compute; reflexivity].
Defined.

(** ** The evidence gatherer *)

(** The header of a block carries the ordinal it is given. *)
Example source_block_label title url content :
  source_block 3 title url content
  = lit "--- SOURCE [3] ---" ++ [LF] ++ lit "Title: " ++ title ++ [LF]
    ++ lit "URL: " ++ url ++ [LF; LF] ++ content ++ [LF; LF].
Proof. reflexivity. Qed.

Lemma no_results_search_data searchResponse :
  no_results searchResponse = true <-> search_data searchResponse = None.
Proof.
  unfold no_results, search_data.
  destruct (chain _ _) as [[| | | |[|x l]|]|]; split; congruence.
Qed.

Lemma reader_url_source s v :
  is_source s v -> reader_url v = inr (JINA_READER_API ++ url s).
Proof.
  intros [Ht Hu]. unfold reader_url. rewrite Hu.
  destruct v; try discriminate Ht. reflexivity.
Qed.

Lemma reader_urls_sources srcs vs :
  Forall2 is_source srcs vs ->
  reader_urls vs = (map (fun s => JINA_READER_API ++ url s) srcs, None).
Proof.
  induction 1 as [|s v srcs vs Hs _ IH]; simpl; [done|].
  by rewrite (reader_url_source s v Hs), IH.
Qed.

Lemma render_block_source s v index c :
  is_source s v ->
  render_block index v (JStr c)
  = inr (source_block (index + 1) (title s) (url s) c).
Proof.
  intros [Ht Hu]. unfold render_block. rewrite Ht, Hu.
  destruct v; try discriminate Ht. reflexivity.
Qed.

(** Reads that give nothing leave the accumulator as it is. *)
Lemma gather_unreadable topSources readerResults index acc :
  Forall unreadable readerResults ->
  gather index topSources readerResults acc = inr acc.
Proof.
  intros Hall. revert topSources index.
  induction Hall as [|result results Hr _ IH]; intros [|v vs] index;
    cbn [gather]; try reflexivity.
  destruct result as [value|reason]; [|apply IH].
  unfold unreadable in Hr.
  destruct (truthy (Some value)); [|apply IH].
  cbn [andb] in Hr. rewrite Hr. apply IH.
Qed.

Lemma gather_rejected topSources readerResults index acc v reason :
  gather index (v :: topSources) (Rejected reason :: readerResults) acc
  = gather (S index) topSources readerResults acc.
Proof. reflexivity. Qed.

Lemma gather_readable topSources readerResults index acc s v result c :
  is_source s v -> readable result c ->
  gather index (v :: topSources) (result :: readerResults) acc
  = gather (S index) topSources readerResults
      (acc.1 ++ source_block (index + 1) (title s) (url s) c, S acc.2).
Proof.
  intros Hs (value & -> & Hv & Hc & Hne). cbn [gather]. rewrite Hv, Hc.
  assert (truthy (Some (JStr c)) = true) as ->.
  { simpl. by case_bool_decide. }
  by rewrite (render_block_source s v index c Hs).
Qed.

Section Run.

Variable JSON_parse : text -> option json.
Variable encodeURIComponent : text -> option text.
Variable engine_message : engine_error -> text.
Variable net : network.
Variable a : app.

Local Abbreviation run :=
  (handleInitialSubmit JSON_parse encodeURIComponent engine_message net a).
Local Abbreviation query := (initialQuery a).

(** The submission is accepted and the search call answers. *)
Variable encoded : text.
Variable searchResponse : json.
Hypothesis Hquery : trim query <> [].
Hypothesis Hidle : isLoading a = false.
Hypothesis Hencoded :
  encodeURIComponent (optimizeQuery (on_chat net query) query)
  = Some encoded.
Hypothesis Hsearch :
  on_search net (JINA_SEARCH_API ++ encoded) = Fulfilled searchResponse.

Local Abbreviation searching := (searching a).
Local Abbreviation searched := (searched a encoded).

Lemma run_searched :
  run
  = conclude
      match search_data searchResponse with
      | None => (searching, searched, Some NoSourcesError)
      | Some data =>
          read_sources JSON_parse engine_message net searching searched data
      end.
Proof.
  unfold handleInitialSubmit. rewrite Hidle.
  destruct (trim query) as [|c t]; [done|].
  unfold research. cbn [initialQuery set_loadingStatus begin_submit
    resetState set_isLoading set_view set_currentTopic push set_messages].
  rewrite Hencoded, Hsearch. reflexivity.
Qed.

(** C5. When the data field of the search response is missing, is not
    an array or is an empty array, the run ends with the message of
    NoSourcesError as the assistant's answer, after the optimizer's
    request and the search request only: no read request is issued. *)
Theorem C5_no_results_no_reads :
  no_results searchResponse = true ->
  messages run.1
  = [ {| role := user; content := query |};
      {| role := assistant; content := research_error NoSourcesError |} ]
  /\ run.2 = [ChatRequest query; SearchRequest (JINA_SEARCH_API ++ encoded)]
  /\ (forall u, ReadRequest u ∉ run.2)
  /\ (forall h, StreamRequest h ∉ run.2)
  /\ isLoading run.1 = false.
Proof.
  intros Hno. apply no_results_search_data in Hno.
  rewrite run_searched, Hno. cbn.
  repeat split; try done.
  - intros u Hu. repeat (apply elem_of_cons in Hu as [Hu|Hu]; [done|]).
    by apply elem_of_nil in Hu.
  - intros u Hu. repeat (apply elem_of_cons in Hu as [Hu|Hu]; [done|]).
    by apply elem_of_nil in Hu.
Qed.

Lemma imap_unreadable (srcs : list Source) :
  (forall i s, srcs !! i = Some s ->
               unreadable (on_read net i (JINA_READER_API ++ url s))) ->
  Forall unreadable
    (imap (on_read net) (map (fun s => JINA_READER_API ++ url s) srcs)).
Proof.
  intros Hall. apply Forall_lookup_2. intros i r Hr.
  rewrite list_lookup_imap, list_lookup_fmap in Hr.
  destruct (srcs !! i) as [s|] eqn:Hs; [|done].
  injection Hr as <-. by apply Hall.
Qed.

(** C6. When the search gives sources but every read that is issued
    fails, gives nothing or gives an empty content, the run ends with the
    message of NoReadableContentError as the assistant's answer and asks
    for no synthesis; that message differs from the one of
    NoSourcesError. *)
Theorem C6_no_readable_content (data : list json) (srcs : list Source) :
  search_data searchResponse = Some data ->
  Forall2 is_source srcs (take 5 data) ->
  (forall i s, srcs !! i = Some s ->
               unreadable (on_read net i (JINA_READER_API ++ url s))) ->
  messages run.1
  = [ {| role := user; content := query |};
      {| role := assistant;
         content := research_error NoReadableContentError |} ]
  /\ run.2
     = searched
       ++ map (fun s => ReadRequest (JINA_READER_API ++ url s)) srcs
  /\ isLoading run.1 = false
  /\ NoReadableContentError <> NoSourcesError
  /\ research_error NoReadableContentError <> research_error NoSourcesError.
Proof.
  intros Hdata Hsources Hreads.
  rewrite run_searched, Hdata. unfold read_sources.
  rewrite (reader_urls_sources _ _ Hsources).
  rewrite gather_unreadable by by apply imap_unreadable.
  cbn. rewrite map_map.
  split; [done|]. split; [done|]. split; [done|]. split; by vm_compute.
Qed.

(** C2. Five sources of which the second and the fourth cannot be read
    and the others give a non-empty content: the evidence put to the
    model is made of three blocks, for the first, the third and the
    fifth source in that order, each under the ordinal the source has in
    the search results: the blocks are headed SOURCE [1], SOURCE [3] and
    SOURCE [5], not 1, 2 and 3. The text is the one sent for synthesis,
    behind the question in the user prompt. *)
Theorem C2_blocks_keep_their_ordinals
    (s1 s2 s3 s4 s5 : Source) (v1 v2 v3 v4 v5 : json) (more : list json)
    (c1 c3 c5 reason2 reason4 : text) :
  search_data searchResponse = Some (v1 :: v2 :: v3 :: v4 :: v5 :: more) ->
  is_source s1 v1 -> is_source s2 v2 -> is_source s3 v3 ->
  is_source s4 v4 -> is_source s5 v5 ->
  readable (on_read net 0 (JINA_READER_API ++ url s1)) c1 ->
  on_read net 1 (JINA_READER_API ++ url s2) = Rejected reason2 ->
  readable (on_read net 2 (JINA_READER_API ++ url s3)) c3 ->
  on_read net 3 (JINA_READER_API ++ url s4) = Rejected reason4 ->
  readable (on_read net 4 (JINA_READER_API ++ url s5)) c5 ->
  let block (header : text) (s : Source) (c : text) : text :=
    header ++ [LF] ++ lit "Title: " ++ title s ++ [LF]
    ++ lit "URL: " ++ url s ++ [LF; LF] ++ c ++ [LF; LF] in
  let combinedContext :=
    block (lit "--- SOURCE [1] ---") s1 c1
    ++ block (lit "--- SOURCE [3] ---") s3 c3
    ++ block (lit "--- SOURCE [5] ---") s5 c5 in
  gather 0 [v1; v2; v3; v4; v5]
    (imap (on_read net)
       (map (fun s => JINA_READER_API ++ url s) [s1; s2; s3; s4; s5]))
    ([], 0%nat)
  = inr (combinedContext, 3%nat)
  /\ run.2
     = searched
       ++ map (fun s => ReadRequest (JINA_READER_API ++ url s))
            [s1; s2; s3; s4; s5]
       ++ [StreamRequest
             [ {| role := system; content := systemPrompt |};
               {| role := user;
                  content :=
                    lit "User's Question: " ++ [QUOTE] ++ query ++ [QUOTE]
                    ++ [LF; LF] ++ lit "--- PROVIDED SOURCES ---" ++ [LF]
                    ++ combinedContext |} ]].
Proof.
  intros Hdata H1 H2 H3 H4 H5 R1 R2 R3 R4 R5 block combinedContext.
  assert (Hblock1 : forall s c,
    source_block 1 (title s) (url s) c = block (lit "--- SOURCE [1] ---") s c)
    by reflexivity.
  assert (Hblock3 : forall s c,
    source_block 3 (title s) (url s) c = block (lit "--- SOURCE [3] ---") s c)
    by reflexivity.
  assert (Hblock5 : forall s c,
    source_block 5 (title s) (url s) c = block (lit "--- SOURCE [5] ---") s c)
    by reflexivity.
  assert (Hgather :
    gather 0 [v1; v2; v3; v4; v5]
      (imap (on_read net)
         (map (fun s => JINA_READER_API ++ url s) [s1; s2; s3; s4; s5]))
      ([], 0%nat)
    = inr (combinedContext, 3%nat)).
  { cbn [map imap compose]. rewrite R2, R4.
    rewrite (gather_readable _ _ _ _ s1 v1 _ c1 H1 R1), gather_rejected.
    rewrite (gather_readable _ _ _ _ s3 v3 _ c3 H3 R3), gather_rejected.
    rewrite (gather_readable _ _ _ _ s5 v5 _ c5 H5 R5).
    cbn [gather fst snd Nat.add]. subst combinedContext.
    rewrite Hblock1, Hblock3, Hblock5.
    by rewrite !app_nil_l, <- !app_assoc. }
  split; [done|].
  rewrite run_searched, Hdata. unfold read_sources.
  change (take 5 (v1 :: v2 :: v3 :: v4 :: v5 :: more))
    with [v1; v2; v3; v4; v5].
  cbn [reader_urls].
  rewrite (reader_url_source s1 v1 H1), (reader_url_source s2 v2 H2),
    (reader_url_source s3 v3 H3), (reader_url_source s4 v4 H4),
    (reader_url_source s5 v5 H5).
  cbn [map] in Hgather |- *. rewrite Hgather.
  cbn. by rewrite <- !app_assoc.
Qed.

End Run.

(** *** Sample runs of the gatherer *)

Lemma C5_no_results_no_reads_witness :
  let run :=
    handleInitialSubmit Sample.parse Sample.encode (fun _ => lit "TypeError")
      (sample_network (JArr []) false) (asking "coffee") in
  messages run.1
  = [ {| role := user; content := lit "coffee" |};
      {| role := assistant; content := research_error NoSourcesError |} ]
  /\ run.2 = [ChatRequest (lit "coffee");
              SearchRequest (JINA_SEARCH_API ++ lit "coffee")]
  /\ (forall u, ReadRequest u ∉ run.2)
  /\ (forall h, StreamRequest h ∉ run.2)
  /\ isLoading run.1 = false.
Proof.
  apply (C5_no_results_no_reads Sample.parse Sample.encode
           (fun _ => lit "TypeError")
           (sample_network (JArr []) false) (asking "coffee") (lit "coffee")
           (JObj [(lit "data", JArr [])])).
  - vm_compute. discriminate.
  - reflexivity.
  - reflexivity.
  - reflexivity.
  - reflexivity.
Defined.

Lemma C6_no_readable_content_witness :
  let run :=
    handleInitialSubmit Sample.parse Sample.encode (fun _ => lit "TypeError")
      (sample_network (JArr five_sources) false) (asking "coffee") in
  messages run.1
  = [ {| role := user; content := lit "coffee" |};
      {| role := assistant;
         content := research_error NoReadableContentError |} ]
  /\ run.2
     = searched (asking "coffee") (lit "coffee")
       ++ map (fun s => ReadRequest (JINA_READER_API ++ url s)) five_records
  /\ isLoading run.1 = false
  /\ NoReadableContentError <> NoSourcesError
  /\ research_error NoReadableContentError <> research_error NoSourcesError.
Proof.
  apply (C6_no_readable_content Sample.parse Sample.encode
           (fun _ => lit "TypeError")
           (sample_network (JArr five_sources) false) (asking "coffee")
           (lit "coffee") (JObj [(lit "data", JArr five_sources)])
           ltac:(vm_compute; discriminate) eq_refl eq_refl eq_refl
           five_sources five_records eq_refl).
  - repeat constructor.
  - intros i s _. exact I.
Defined.

Lemma C2_blocks_keep_their_ordinals_witness :
  let run :=
    handleInitialSubmit Sample.parse Sample.encode (fun _ => lit "TypeError")
      (sample_network (JArr five_sources) true) (asking "coffee") in
  exists earlier,
    run.2
    = earlier
      ++ [StreamRequest
            [ {| role := system; content := systemPrompt |};
              {| role := user;
                 content :=
                   lit "User's Question: " ++ [QUOTE] ++ lit "coffee"
                   ++ [QUOTE] ++ [LF; LF]
                   ++ lit "--- PROVIDED SOURCES ---" ++ [LF]
                   ++ lit "--- SOURCE [1] ---" ++ [LF]
                   ++ lit "Title: One" ++ [LF]
                   ++ lit "URL: https://a.example/1" ++ [LF; LF]
                   ++ lit "Page text" ++ [LF; LF]
                   ++ lit "--- SOURCE [3] ---" ++ [LF]
                   ++ lit "Title: Three" ++ [LF]
                   ++ lit "URL: https://a.example/3" ++ [LF; LF]
                   ++ lit "Page text" ++ [LF; LF]
                   ++ lit "--- SOURCE [5] ---" ++ [LF]
                   ++ lit "Title: Five" ++ [LF]
                   ++ lit "URL: https://a.example/5" ++ [LF; LF]
                   ++ lit "Page text" ++ [LF; LF] |} ]].
Proof.
  intros run. subst run. eexists.
  edestruct (C2_blocks_keep_their_ordinals Sample.parse Sample.encode
               (fun _ => lit "TypeError")
               (sample_network (JArr five_sources) true) (asking "coffee")
               (lit "coffee") (JObj [(lit "data", JArr five_sources)])
               ltac:(vm_compute; discriminate) eq_refl eq_refl eq_refl
               {| title := lit "One"; url := lit "https://a.example/1" |}
               {| title := lit "Two"; url := lit "https://a.example/2" |}
               {| title := lit "Three"; url := lit "https://a.example/3" |}
               {| title := lit "Four"; url := lit "https://a.example/4" |}
               {| title := lit "Five"; url := lit "https://a.example/5" |}
               _ _ _ _ _ [] (lit "Page text") (lit "Page text")
               (lit "Page text") (lit "timeout") (lit "timeout") eq_refl)
    as [_ ->];
    try (split; reflexivity); try reflexivity;
    try (eexists; repeat split; [reflexivity.. | discriminate]).
  rewrite app_assoc. reflexivity.
Defined.

(** *** The scenario of the specification, end to end *)

Example scenario_answer :
  let run :=
    handleInitialSubmit Sample.parse Sample.encode (fun _ => lit "TypeError")
      scenario_network (asking "Is coffee healthy?") in
  messages run.1
  = [ {| role := user; content := lit "Is coffee healthy?" |};
      {| role := assistant;
         content := lit "Coffee may have health benefits[1]." |} ]
  /\ view run.1 = chat /\ isLoading run.1 = false
  /\ run.2 !! 1%nat
     = Some (SearchRequest
               (lit "https://s.jina.ai/health%20effects%20of%20coffee%20consumption"))
  /\ length run.2 = 8%nat.
Proof. vm_compute. repeat split. Qed.

(** The same answer stream read one code unit at a time. *)
Example scenario_unit_by_unit :
  let whole :=
    doc "{`choices`:[{`delta`:{`content`:`a\`b`}}]}{`choices`:[{`delta`:{`content`:`{c}`},`finish_reason`:`stop`}]}{`x`:1}" in
  let split := map (fun c => [c]) whole in
  concat split = whole
  /\ content_at 0
       (refs (streamAiResponse Sample.parse (Body (chunked split)) blank))
     = content_at 0
         (refs (streamAiResponse Sample.parse (Body (chunked [whole])) blank))
  /\ content_at 0
       (refs (streamAiResponse Sample.parse (Body (chunked split)) blank))
     = [97; QUOTE; 98] ++ lit "{c}".
Proof. vm_compute. repeat split. Qed.

(** A body that breaks after its first object: the answer read so far
    stays, with the error note behind it. *)
Example broken_stream_keeps_the_answer :
  let run :=
    streamAiResponse Sample.parse
      (Body (Chunk hello_object (ReadRejects (lit "network error")))) blank in
  content_at 0 (refs run) = lit "Hello" ++ error_note (lit "network error")
  /\ writes run
     = [[]; lit "Hello"; lit "Hello" ++ error_note (lit "network error")]
  /\ isLoading (refs run) = false.
Proof. vm_compute. repeat split. Qed.

(** * Further properties *)

(** ** The transport adapter *)

Lemma rethrow_is_error e :
  exists message,
    rethrow e = AnError message
    /\ (lit "Network error or failed request: " `prefix_of` message
        \/ message = lit "An unknown network error occurred.").
Proof.
  destruct e as [m|]; eexists; (split; [reflexivity|]).
  - left. by eexists.
  - by right.
Qed.

(** X1. [robustFetch] resolves only for a response that is ok and whose
    body could be read: the value is then that body, as text or parsed,
    never the body of a failed response. *)
Theorem X1_robustFetch_resolves_only_when_ok
    (JSON_parse : text -> option json) (SyntaxError_message : text -> text)
    (outcome : fetched) (v : json) :
  robustFetch JSON_parse SyntaxError_message outcome = inr v ->
  exists response t,
    outcome = Responds response /\ ok response = true
    /\ body_text response = inr t
    /\ (v = JStr t \/ JSON_parse t = Some v).
Proof.
  unfold robustFetch, response_json, response_text.
  destruct outcome as [e|response]; [discriminate|].
  destruct (ok response) eqn:Hok.
  - destruct (body_text response) as [e|t] eqn:Hbody.
    + destruct (content_type response) as [c|]; [|discriminate].
      destruct (includes _ c); discriminate.
    + intros H. exists response, t. repeat split; try done.
      destruct (content_type response) as [c|]; [|left; congruence].
      destruct (includes _ c); [|left; congruence].
      right. destruct (JSON_parse t); congruence.
  - destruct (body_text response); discriminate.
Qed.

Lemma X1_robustFetch_resolves_only_when_ok_witness :
  exists response t,
    Responds {| ok := true; status := 200;
                content_type := Some (lit "application/json; charset=utf-8");
                body_text := inr (doc "{`data`:[]}") |}
    = Responds response
    /\ ok response = true /\ body_text response = inr t
    /\ (JObj [(lit "data", JArr [])] = JStr t
        \/ Sample.parse t = Some (JObj [(lit "data", JArr [])])).
Proof.
  apply (X1_robustFetch_resolves_only_when_ok Sample.parse (fun _ => [])).
  vm_compute. reflexivity.
Defined.

(** X2. Whatever goes wrong before a body is handed over (the request
    fails, the response is not ok, or the body of a response that is not
    ok cannot be read) is rejected with an [Error] whose message starts
    with the network-error prefix or is the unknown-error message; for a
    response that is not ok with a readable body the message carries the
    status and the body behind a second prefix. *)
Theorem X2_robustFetch_failures_are_wrapped
    (JSON_parse : text -> option json) (SyntaxError_message : text -> text)
    (outcome : fetched) :
  (forall response, outcome = Responds response -> ok response = false) ->
  (exists message,
     robustFetch JSON_parse SyntaxError_message outcome
     = inl (AnError message)
     /\ (lit "Network error or failed request: " `prefix_of` message
         \/ message = lit "An unknown network error occurred."))
  /\ forall response errorBody,
       outcome = Responds response ->
       body_text response = inr errorBody ->
       robustFetch JSON_parse SyntaxError_message outcome
       = inl (AnError
                (lit "Network error or failed request: "
                 ++ lit "API request failed with status "
                 ++ decimal (status response) ++ lit ": " ++ errorBody)).
Proof.
  intros Hbad. split.
  - destruct outcome as [e|response]; simpl.
    + destruct (rethrow_is_error e) as (m & -> & H). by exists m.
    + rewrite (Hbad response eq_refl).
      destruct (body_text response) as [e|errorBody].
      * destruct (rethrow_is_error e) as (m & -> & H). by exists m.
      * eexists. split; [reflexivity|]. left. by eexists.
  - intros response errorBody -> Hbody. simpl.
    by rewrite (Hbad response eq_refl), Hbody.
Qed.

Lemma X2_robustFetch_failures_are_wrapped_witness :
  robustFetch Sample.parse (fun _ => [])
    (Responds {| ok := false; status := 404; content_type := None;
                 body_text := inr (lit "not found") |})
  = inl (AnError
           (lit "Network error or failed request: API request failed with status 404: not found")).
Proof.
  pose proof (X2_robustFetch_failures_are_wrapped Sample.parse (fun _ => [])
                (Responds {| ok := false; status := 404;
                             content_type := None;
                             body_text := inr (lit "not found") |})) as H.
  destruct H as [_ H].
  - intros response [= <-]. reflexivity.
  - rewrite (H _ (lit "not found") eq_refl eq_refl). reflexivity.
Defined.

(** X3. The body of an ok response is returned without being awaited, so
    what goes wrong while it is read or parsed is passed on as it is, not
    wrapped by the [catch]: an unreadable body rejects with the reader's
    own error, and a body declared as JSON that does not parse rejects
    with the parser's SyntaxError. *)
Theorem X3_robustFetch_body_errors_pass_unwrapped
    (JSON_parse : text -> option json) (SyntaxError_message : text -> text)
    (response : http_response) :
  ok response = true ->
  (forall e, body_text response = inl e ->
     robustFetch JSON_parse SyntaxError_message (Responds response) = inl e)
  /\ (forall contentType t,
        content_type response = Some contentType ->
        includes (lit "application/json") contentType = true ->
        body_text response = inr t -> JSON_parse t = None ->
        robustFetch JSON_parse SyntaxError_message (Responds response)
        = inl (AnError (SyntaxError_message t))).
Proof.
  intros Hok. unfold robustFetch, response_json, response_text.
  rewrite Hok. split.
  - intros e ->. destruct (content_type response) as [c|]; [|done].
    by destruct (includes _ c).
  - intros c t -> -> -> ->. reflexivity.
Qed.

Lemma X3_robustFetch_body_errors_pass_unwrapped_witness :
  robustFetch Sample.parse (fun _ => lit "Unexpected token")
    (Responds {| ok := true; status := 200;
                 content_type := Some (lit "application/json");
                 body_text := inr (lit "<html>") |})
  = inl (AnError (lit "Unexpected token")).
Proof.
  destruct (X3_robustFetch_body_errors_pass_unwrapped Sample.parse
              (fun _ => lit "Unexpected token")
              {| ok := true; status := 200;
                 content_type := Some (lit "application/json");
                 body_text := inr (lit "<html>") |} eq_refl) as [_ H].
  apply (H (lit "application/json") (lit "<html>")); vm_compute; reflexivity.
Defined.

(** X4. A body is parsed only when the content-type header is there and
    contains application/json; otherwise it is handed over as a string,
    and a search response received that way counts as having no results
    even when its text is a well-formed list of results. *)
Theorem X4_unlabelled_json_is_text
    (JSON_parse : text -> option json) (SyntaxError_message : text -> text)
    (response : http_response) (t : text) :
  ok response = true ->
  body_text response = inr t ->
  match content_type response with
  | Some contentType => includes (lit "application/json") contentType = false
  | None => True
  end ->
  robustFetch JSON_parse SyntaxError_message (Responds response)
  = inr (JStr t)
  /\ no_results (JStr t) = true
  /\ search_data (JStr t) = None.
Proof.
  intros Hok Hbody Htype. unfold robustFetch, response_text.
  rewrite Hok, Hbody. split; [|done].
  destruct (content_type response) as [c|]; [|done]. by rewrite Htype.
Qed.

Lemma X4_unlabelled_json_is_text_witness :
  robustFetch Sample.parse (fun _ => [])
    (Responds {| ok := true; status := 200;
                 content_type := Some (lit "text/plain");
                 body_text := inr (doc "{`data`:[{`title`:`T`,`url`:`u`}]}") |})
  = inr (JStr (doc "{`data`:[{`title`:`T`,`url`:`u`}]}"))
  /\ no_results (JStr (doc "{`data`:[{`title`:`T`,`url`:`u`}]}")) = true
  /\ search_data (JStr (doc "{`data`:[{`title`:`T`,`url`:`u`}]}")) = None.
Proof.
  apply X4_unlabelled_json_is_text.
  - reflexivity.
  - reflexivity.
  - vm_compute. reflexivity.
Defined.

(** ** More on the scanner and the extraction loop *)

Lemma scan_step_break prev char st :
  scan_step prev char st = inr tt -> char = RBRACE.
Proof.
  unfold scan_step. destruct (inString (quote_step prev char st)); [done|].
  destruct (N.eqb char LBRACE); [done|].
  destruct (N.eqb_spec char RBRACE) as [->|]; [done|done].
Qed.

Lemma scan_points prev i st rest e :
  scan prev i st rest = Some e -> rest !! (e - 1 - i)%nat = Some RBRACE.
Proof.
  revert prev i st. induction rest as [|char rest IH]; intros prev i st; simpl.
  - discriminate.
  - destruct (scan_step prev char st) as [st'|[]] eqn:Hstep.
    + intros H. apply scan_bounds in H as Hb. apply IH in H.
      replace (e - 1 - i)%nat with (S (e - 1 - S i)) by lia. done.
    + intros [= <-]. apply scan_step_break in Hstep as ->.
      by replace (S i - 1 - i)%nat with 0%nat by lia.
Qed.

Lemma scan_without_closing prev i st rest :
  RBRACE ∉ rest -> scan prev i st rest = None.
Proof.
  revert prev i st. induction rest as [|char rest IH]; intros prev i st Hno;
    simpl; [done|].
  apply not_elem_of_cons in Hno as [Hne Hno].
  destruct (scan_step prev char st) as [st'|[]] eqn:Hstep; [by apply IH|].
  apply scan_step_break in Hstep. congruence.
Qed.

(** X5. The index the scanner reports lies within the buffer, just behind
    a closing brace: a candidate object is never empty and always ends with
    that brace. A buffer without a closing brace has no object end. *)
Theorem X5_object_end_is_behind_a_closing_brace (buffer : text) :
  (forall e, objectEndIndex buffer = Some e ->
     (0 < e <= length buffer)%nat
     /\ buffer !! (e - 1)%nat = Some RBRACE
     /\ last (take e buffer) = Some RBRACE)
  /\ (RBRACE ∉ buffer -> objectEndIndex buffer = None).
Proof.
  split; [|apply scan_without_closing].
  intros e He. apply objectEndIndex_bounds in He as Hb.
  apply scan_points in He. rewrite Nat.sub_0_r in He.
  split; [done|]. split; [done|].
  rewrite last_lookup, length_take_le by lia.
  rewrite lookup_take_lt by lia.
  by replace (Init.Nat.pred e) with (e - 1)%nat by lia.
Qed.

Section Loop.

Variable JSON_parse : text -> option json.
Variable lastMessageIndex : nat.

Local Abbreviation try_object' := (try_object JSON_parse lastMessageIndex).
Local Abbreviation extract' := (extract JSON_parse lastMessageIndex).
Local Abbreviation settle' := (settle JSON_parse lastMessageIndex).
Local Abbreviation pump' := (pump JSON_parse lastMessageIndex).
Local Abbreviation publish' := (publish lastMessageIndex).

Lemma extract_suffix n f : buffer (extract' n f).2 `suffix_of` buffer f.
Proof.
  revert f. induction n as [|n IH]; intros f; simpl; [done|].
  destruct (buffer f) as [|c b] eqn:Hb; [simpl; by rewrite Hb|].
  destruct (objectEndIndex (c :: b)) as [e|]; [|simpl; by rewrite Hb].
  pose proof (try_object_buffer JSON_parse lastMessageIndex
                (take e (c :: b)) (consume e f)) as Hbuf.
  simpl in Hbuf. rewrite Hb in Hbuf.
  destruct (try_object' _ _) as [[] f']; simpl in Hbuf |- *.
  - etrans; [apply IH|]. rewrite Hbuf. apply suffix_drop.
  - rewrite Hbuf. apply suffix_drop.
Qed.

Lemma extract_drained n f :
  (length (buffer f) <= n)%nat ->
  (extract' n f).1 = Continue ->
  objectEndIndex (buffer (extract' n f).2) = None.
Proof.
  revert f. induction n as [|n IH]; intros f Hn.
  - destruct (buffer f) eqn:Hb; [|simpl in Hn; lia]. simpl. by rewrite Hb.
  - simpl. destruct (buffer f) as [|c b] eqn:Hb; [simpl; by rewrite Hb|].
    destruct (objectEndIndex (c :: b)) as [e|] eqn:He; [|simpl; by rewrite Hb].
    apply objectEndIndex_bounds in He as Hbound.
    pose proof (try_object_buffer JSON_parse lastMessageIndex
                  (take e (c :: b)) (consume e f)) as Hbuf.
    simpl in Hbuf. rewrite Hb in Hbuf.
    destruct (try_object' _ _) as [[] f']; [|done].
    apply IH. simpl in Hbuf. rewrite Hbuf, length_drop. simpl in *. lia.
Qed.

Lemma try_object_delivers stop object t f :
  (lastMessageIndex < length (messages (refs f)))%nat ->
  delivers JSON_parse stop object t ->
  try_object' object f
  = (if stop then Returned else Continue, publish' t f).
Proof.
  intros Hi (_ & parsed & Hp & Hnull & Ht & Hstop). unfold try_object.
  rewrite Hp, Ht, store_accumulate.
  destruct (lookup_lt_is_Some_2 _ _ Hi) as [m ->]. rewrite Hstop.
  destruct parsed; try done; by destruct stop.
Qed.

(** One turn of the loop on a buffer that starts with such an object. *)
Lemma settle_delivers stop object t rest f :
  (lastMessageIndex < length (messages (refs f)))%nat ->
  delivers JSON_parse stop object t ->
  buffer f = object ++ rest ->
  settle' f
  = if stop then (Returned, publish' t (consume (length object) f))
    else settle' (publish' t (consume (length object) f)).
Proof.
  intros Hi Hd Hb. pose proof Hd as [He _].
  apply objectEndIndex_bounds in He as Hbound.
  apply (objectEndIndex_app _ rest) in He. rewrite <- Hb in He.
  unfold settle at 1.
  destruct (length (buffer f)) as [|n] eqn:Hlen.
  { rewrite Hb, length_app in Hlen. lia. }
  simpl. destruct (buffer f) as [|c b] eqn:Hbuf; [done|].
  rewrite He. rewrite <- Hbuf in *.
  replace (take (length object) (buffer f)) with object
    by by rewrite Hb, take_app_length.
  rewrite (try_object_delivers stop object t) by done.
  destruct stop; [done|].
  apply settle_enough. simpl. rewrite length_drop. lia.
Qed.

(** A buffer made of such objects, none with the stop mark, then [rest]:
    the loop applies their deltas in order and goes on with [rest]. *)
Lemma settle_objects objects deltas rest f :
  (lastMessageIndex < length (messages (refs f)))%nat ->
  Forall2 (delivers JSON_parse false) objects deltas ->
  buffer f = concat objects ++ rest ->
  exists f',
    settle' f = settle' f'
    /\ buffer f' = rest
    /\ assistantResponse f' = assistantResponse f ++ concat deltas
    /\ length (messages (refs f')) = length (messages (refs f)).
Proof.
  intros Hi Hall. revert f Hi.
  induction Hall as [|object t objects deltas Hd _ IH]; intros f Hi Hb.
  - exists f. simpl. by rewrite app_nil_r.
  - simpl in Hb. rewrite <- app_assoc in Hb.
    rewrite (settle_delivers false object t _ f Hi Hd Hb).
    destruct (IH (publish' t (consume (length object) f)))
      as (f' & Hs & Hrest & Hr & Hm).
    + simpl. by rewrite length_alter.
    + simpl. by rewrite Hb, drop_app_length.
    + exists f'. split; [done|]. split; [done|].
      simpl in Hr, Hm. rewrite length_alter in Hm.
      split; [|done]. simpl. by rewrite Hr, <- app_assoc.
Qed.

(** X6. The inner loop only takes text off the head of the buffer, and
    when it stops for lack of a complete object what it leaves holds no
    object end: a fully scanned object is never kept back. *)
Theorem X6_loop_leaves_no_complete_object (f : frame) :
  buffer (settle' f).2 `suffix_of` buffer f
  /\ ((settle' f).1 = Continue ->
      objectEndIndex (buffer (settle' f).2) = None).
Proof.
  split; [apply extract_suffix|]. by apply extract_drained.
Qed.

End Loop.

(** ** The whole of [streamAiResponse] *)

Lemma set_content_push a m c :
  set_content (length (messages a)) c (push m a)
  = push {| role := role m; content := c |} a.
Proof.
  unfold set_content, push, set_messages; simpl. f_equal.
  replace (length (messages a)) with (length (messages a) + 0)%nat at 1
    by lia.
  by rewrite alter_app_r.
Qed.

Lemma content_at_push a m :
  content_at (length (messages a)) (push m a) = content m.
Proof.
  unfold content_at, push; simpl. by rewrite lookup_app_r, Nat.sub_diag.
Qed.

Lemma pump_single JSON_parse lastMessageIndex w f :
  pump JSON_parse lastMessageIndex (chunked [w]) f
  = ((settle JSON_parse lastMessageIndex (receive w f)).2, None).
Proof.
  simpl. by destruct (settle _ _ (receive w f)) as [[] ?].
Qed.

Section Answer.

Variable JSON_parse : text -> option json.
Variable a : app.

Local Abbreviation idx := (length (messages a)).
Local Abbreviation try_object' := (try_object JSON_parse idx).
Local Abbreviation extract' := (extract JSON_parse idx).
Local Abbreviation settle' := (settle JSON_parse idx).
Local Abbreviation pump' := (pump JSON_parse idx).
Local Abbreviation publish' := (publish idx).

Lemma pushed_index f : pushed a f -> (idx < length (messages (refs f)))%nat.
Proof. intros ->. simpl. rewrite length_app. simpl. lia. Qed.

Lemma publish_pushed t f : pushed a f -> pushed a (publish' t f).
Proof.
  unfold pushed. intros Hf. simpl. by rewrite Hf, set_content_push.
Qed.

Lemma try_object_pushed jsonStr f :
  pushed a f -> pushed a (try_object' jsonStr f).2.
Proof.
  intros Hf.
  destruct (try_object_cases JSON_parse idx jsonStr f)
    as [->|[(t & -> & Hnone)|(t & fl & -> & _)]]; [done| |].
  - apply pushed_index, lookup_lt_is_Some_2 in Hf as [m Hm]. congruence.
  - by apply publish_pushed.
Qed.

Lemma extract_pushed n f : pushed a f -> pushed a (extract' n f).2.
Proof.
  revert f. induction n as [|n IH]; intros f Hf; simpl; [done|].
  destruct (buffer f) as [|c b]; [done|].
  destruct (objectEndIndex (c :: b)) as [e|]; [|done].
  pose proof (try_object_pushed (take e (c :: b)) (consume e f) Hf) as H.
  destruct (try_object' _ _) as [[] f']; [by apply IH | done].
Qed.

Lemma pump_pushed body f : pushed a f -> pushed a (pump' body f).1.
Proof.
  revert f. induction body as [|value rest IH|message]; intros f Hf; simpl;
    [done| |done].
  pose proof (extract_pushed (length (buffer (receive value f)))
                (receive value f) Hf) as H.
  unfold settle. destruct (extract' _ _) as [[] f']; [by apply IH | done].
Qed.

Lemma attempt_pushed reply :
  pushed a (attempt JSON_parse idx reply (opening a)).1.
Proof. destruct reply; simpl; try done. by apply pump_pushed. Qed.

Lemma streamAiResponse_refs reply :
  let run := streamAiResponse JSON_parse reply a in
  refs run
  = set_isLoading false
      (push {| role := assistant; content := content_at idx (refs run) |} a).
Proof.
  intros run. subst run. unfold streamAiResponse. rewrite opening_index.
  pose proof (attempt_pushed reply) as Hp.
  destruct (attempt JSON_parse idx reply (opening a)) as [f1 thrown].
  simpl in Hp. unfold pushed in Hp.
  destruct thrown as [message|]; simpl.
  - rewrite Hp, set_content_push. simpl.
    unfold content_at at 2. simpl.
    by rewrite lookup_app_r, Nat.sub_diag.
  - rewrite Hp. unfold content_at. simpl.
    by rewrite lookup_app_r, Nat.sub_diag.
Qed.

(** X7. Whatever the reply, [streamAiResponse] leaves the page as it
    found it except for two things: one message is added behind the
    others, the assistant's, and the loading flag is down. Earlier
    messages, the sources, the view and the queries are untouched. *)
Theorem X7_streamAiResponse_adds_one_message (reply : response) :
  let run := streamAiResponse JSON_parse reply a in
  refs run
  = set_isLoading false
      (push {| role := assistant; content := content_at idx (refs run) |} a)
  /\ messages (refs run)
     = messages a
       ++ [{| role := assistant; content := content_at idx (refs run) |}]
  /\ sources (refs run) = sources a
  /\ isLoading (refs run) = false.
Proof.
  intros run. pose proof (streamAiResponse_refs reply) as H.
  cbv zeta in H. fold run in H. split; [done|]. clearbody run.
  remember (content_at idx (refs run)) as c eqn:Hc. clear Hc.
  by rewrite H.
Qed.

(** A body delivered in chunks and ended: nothing is thrown, and the
    answer is the one the loop gives on the concatenation. *)
Lemma stream_of_chunks chunks :
  let run := streamAiResponse JSON_parse (Body (chunked chunks)) a in
  (attempt JSON_parse idx (Body (chunked chunks)) (opening a)).2 = None
  /\ assistantResponse run
     = assistantResponse (settle' (receive (concat chunks) (opening a))).2
  /\ content_at idx (refs run) = assistantResponse run.
Proof.
  intros run. subst run. unfold streamAiResponse. rewrite opening_index.
  pose proof (attempt_in_step JSON_parse (Body (chunked chunks)) a) as Hstep.
  simpl attempt in *.
  destruct (pump_chunked JSON_parse idx chunks (opening a) eq_refl)
    as ((Hr & _ & _) & Hnone & _).
  rewrite pump_single in Hr. simpl in Hr.
  destruct (pump' (chunked chunks) (opening a)) as [f1 thrown].
  simpl in Hnone, Hr, Hstep. subst thrown. simpl.
  destruct Hstep as ((_ & Hc) & _). done.
Qed.

(** X8. A stream that ends without a rejected read ends cleanly, with or
    without a stop object: no error note is added, and the open message
    holds exactly the accumulated answer. *)
Theorem X8_end_of_stream_is_a_clean_end (chunks : list text) :
  let run := streamAiResponse JSON_parse (Body (chunked chunks)) a in
  (attempt JSON_parse idx (Body (chunked chunks)) (opening a)).2 = None
  /\ content_at idx (refs run) = assistantResponse run
  /\ last (writes run) = Some (assistantResponse run).
Proof.
  intros run. destruct (stream_of_chunks chunks) as (Hnone & _ & Hc).
  split; [done|]. split; [done|].
  subst run. unfold streamAiResponse in *. rewrite opening_index in *.
  pose proof (attempt_in_step JSON_parse (Body (chunked chunks)) a) as Hstep.
  destruct (attempt JSON_parse idx (Body (chunked chunks)) (opening a))
    as [f1 thrown].
  simpl in Hnone. subst thrown. simpl in *. by destruct Hstep as (_ & _ & ? & _).
Qed.

(** X9. Deltas are applied in the order of the objects, whatever the
    chunking: when the stream is the concatenation of objects the scanner
    takes whole, each of which parses and has a delta that converts to
    text, none with the stop mark, the answer is the concatenation of
    their deltas. *)
Theorem X9_answer_is_the_deltas_in_order
    (objects deltas chunks : list text) :
  Forall2 (delivers JSON_parse false) objects deltas ->
  concat chunks = concat objects ->
  let run := streamAiResponse JSON_parse (Body (chunked chunks)) a in
  assistantResponse run = concat deltas
  /\ content_at idx (refs run) = concat deltas.
Proof.
  intros Hall Heq run.
  destruct (stream_of_chunks chunks) as (_ & Hr & Hc).
  fold run in Hr, Hc. rewrite Hc, Hr, Heq.
  destruct (settle_objects JSON_parse idx objects deltas []
              (receive (concat objects) (opening a)))
    as (f' & -> & Hb & Hresp & _); try done.
  - simpl. rewrite length_app. simpl. lia.
  - simpl. by rewrite app_nil_r.
  - unfold settle. rewrite Hb. simpl. by rewrite Hresp.
Qed.

(** X10. The same with a stop object behind them: the answer is their
    deltas followed by the stop object's, and whatever text follows the
    stop object, in the same chunk or in later ones, adds nothing. *)
Theorem X10_answer_ends_at_the_stop_object
    (objects deltas chunks : list text) (stop_text last_delta trailing : text) :
  Forall2 (delivers JSON_parse false) objects deltas ->
  delivers JSON_parse true stop_text last_delta ->
  concat chunks = concat objects ++ stop_text ++ trailing ->
  let run := streamAiResponse JSON_parse (Body (chunked chunks)) a in
  assistantResponse run = concat deltas ++ last_delta
  /\ content_at idx (refs run) = concat deltas ++ last_delta.
Proof.
  intros Hall Hstop Heq run.
  destruct (stream_of_chunks chunks) as (_ & Hr & Hc).
  fold run in Hr, Hc. rewrite Hc, Hr, Heq.
  destruct (settle_objects JSON_parse idx objects deltas
              (stop_text ++ trailing)
              (receive (concat objects ++ stop_text ++ trailing) (opening a)))
    as (f' & -> & Hb & Hresp & Hm); try done.
  - simpl. rewrite length_app. simpl. lia.
  - rewrite (settle_delivers JSON_parse idx true stop_text last_delta
               trailing f'); [|rewrite Hm; simpl; rewrite length_app; simpl; lia
                             |done|done].
    simpl. by rewrite Hresp.
Qed.

End Answer.

Lemma hello_delivers : delivers Sample.parse false hello_object (lit "Hello").
Proof.
  split; [vm_compute; reflexivity|].
  eexists. split; [vm_compute; reflexivity|].
  split; [discriminate|]. split; vm_compute; reflexivity.
Defined.

Lemma late_delivers : delivers Sample.parse false late_object (lit ", late").
Proof.
  split; [vm_compute; reflexivity|].
  eexists. split; [vm_compute; reflexivity|].
  split; [discriminate|]. split; vm_compute; reflexivity.
Defined.

Lemma stop_delivers : delivers Sample.parse true stop_object (lit " world").
Proof.
  split; [vm_compute; reflexivity|].
  eexists. split; [vm_compute; reflexivity|].
  split; [discriminate|]. split; vm_compute; reflexivity.
Defined.

Lemma X9_answer_is_the_deltas_in_order_witness :
  let whole := hello_object ++ late_object in
  let run :=
    streamAiResponse Sample.parse
      (Body (chunked [take 10 whole; []; drop 10 whole])) blank in
  assistantResponse run = concat [lit "Hello"; lit ", late"]
  /\ content_at 0 (refs run) = concat [lit "Hello"; lit ", late"].
Proof.
  apply (X9_answer_is_the_deltas_in_order Sample.parse blank
           [hello_object; late_object]).
  - repeat constructor; [apply hello_delivers | apply late_delivers].
  - vm_compute. reflexivity.
Defined.

Lemma X10_answer_ends_at_the_stop_object_witness :
  let whole := hello_object ++ stop_object ++ late_object in
  let run :=
    streamAiResponse Sample.parse
      (Body (chunked [take 50 whole; drop 50 whole; late_object])) blank in
  assistantResponse run = concat [lit "Hello"] ++ lit " world"
  /\ content_at 0 (refs run) = concat [lit "Hello"] ++ lit " world".
Proof.
  apply (X10_answer_ends_at_the_stop_object Sample.parse blank
           [hello_object] [lit "Hello"] _ stop_object (lit " world")
           (late_object ++ late_object)).
  - repeat constructor. apply hello_delivers.
  - apply stop_delivers.
  - vm_compute. reflexivity.
Defined.

(** ** More on the research pipeline *)

Lemma reader_urls_length vs : (length (reader_urls vs).1 <= length vs)%nat.
Proof.
  induction vs as [|v vs IH]; simpl; [done|].
  destruct (reader_url v); simpl; [lia|].
  destruct (reader_urls vs). simpl in *. lia.
Qed.

(** X11. A submission issues its requests in one fixed order and within
    fixed bounds, whatever the network answers. A refused submission (the
    query is blank, or something is loading) issues nothing. An accepted
    one issues the optimizer's request for the query first; then, unless
    the optimized query cannot be encoded, the search request for it; then
    at most five reads; then at most one request for the answer. *)
Theorem X11_requests_of_a_submission
    (JSON_parse : text -> option json)
    (encodeURIComponent : text -> option text)
    (engine_message : engine_error -> text) (net : network) (a : app) :
  let log :=
    (handleInitialSubmit JSON_parse encodeURIComponent engine_message net a).2
  in
  let optimizedQuery :=
    optimizeQuery (on_chat net (initialQuery a)) (initialQuery a) in
  (trim (initialQuery a) = [] \/ isLoading a = true -> log = [])
  /\ (trim (initialQuery a) <> [] /\ isLoading a = false ->
      exists rest,
        log = ChatRequest (initialQuery a) :: rest
        /\ ((rest = [] /\ encodeURIComponent optimizedQuery = None)
            \/ exists encoded urls tail,
                 encodeURIComponent optimizedQuery = Some encoded
                 /\ rest
                    = SearchRequest (JINA_SEARCH_API ++ encoded)
                      :: map ReadRequest urls ++ tail
                 /\ (length urls <= 5)%nat
                 /\ (tail = [] \/ exists h, tail = [StreamRequest h]))).
Proof.
  intros log optimizedQuery. subst log optimizedQuery.
  unfold handleInitialSubmit. split.
  { intros [Hblank|Hbusy]; [by rewrite Hblank|].
    rewrite Hbusy. by destruct (trim _). }
  intros [Hquery Hidle]. rewrite Hidle.
  destruct (trim (initialQuery a)) as [|c t]; [done|]. clear Hquery.
  unfold research.
  cbn [initialQuery set_loadingStatus begin_submit resetState set_isLoading
       set_view set_currentTopic push set_messages].
  destruct (encodeURIComponent _) as [encoded|];
    [|eexists; split; [done|by left]].
  destruct (on_search net _) as [searchResponse|reason];
    [|eexists; split; [done|]; right; exists encoded, [], [];
      (split; [reflexivity|]); (split; [reflexivity|]);
      split; [simpl; lia|by left]].
  destruct (search_data searchResponse) as [data|];
    [|eexists; split; [done|]; right; exists encoded, [], [];
      (split; [reflexivity|]); (split; [reflexivity|]);
      split; [simpl; lia|by left]].
  unfold read_sources.
  pose proof (reader_urls_length (take 5 data)) as Hlen.
  assert (length (take 5 data) <= 5)%nat as H5
    by (rewrite length_take; lia).
  destruct (reader_urls (take 5 data)) as [urls failed]. simpl in Hlen.
  destruct failed as [e|];
    [|destruct (gather _ _ _ _) as [e|[combinedContext [|n]]]];
    (eexists; split; [reflexivity|]; right; exists encoded, urls).
  - exists []. rewrite app_nil_r. split; [done|]. split; [done|].
    split; [lia|by left].
  - exists []. rewrite app_nil_r. split; [done|]. split; [done|].
    split; [lia|by left].
  - exists []. rewrite app_nil_r. split; [done|]. split; [done|].
    split; [lia|by left].
  - eexists. split; [done|]. split; [reflexivity|]. split; [lia|].
    right. by eexists.
Qed.

(** What the [try] block does to the page: the view and the queries stay,
    and the messages stay too unless the answer was asked for, which adds
    the assistant's message. *)
Lemma research_page JSON_parse encodeURIComponent engine_message net a :
  let out := research JSON_parse encodeURIComponent engine_message net a in
  view out.1.1 = view a /\ initialQuery out.1.1 = initialQuery a
  /\ currentTopic out.1.1 = currentTopic a
  /\ followUpQuery out.1.1 = followUpQuery a
  /\ match out.2 with
     | Some _ => messages out.1.1 = messages a
     | None =>
         exists c,
           messages out.1.1
           = messages a ++ [{| role := assistant; content := c |}]
     end.
Proof.
  unfold research.
  destruct (encodeURIComponent _) as [encoded|]; [|done].
  destruct (on_search net _) as [searchResponse|reason]; [|done].
  destruct (search_data searchResponse) as [data|]; [|done].
  unfold read_sources.
  destruct (reader_urls (take 5 data)) as [urls [e|]]; [done|].
  destruct (gather _ _ _ _) as [e|[combinedContext [|n]]]; [done..|].
  cbv zeta. cbn [fst snd].
  match goal with
  | |- context [streamAiResponse ?P ?r ?p] =>
      pose proof (streamAiResponse_refs P p r) as H; cbv zeta in H;
      remember (content_at (length (messages p))
                  (refs (streamAiResponse P r p))) as c eqn:Hc;
      clear Hc; rewrite H
  end.
  repeat split; try done. by exists c.
Qed.

Lemma submission_page
    (JSON_parse : text -> option json)
    (encodeURIComponent : text -> option text)
    (engine_message : engine_error -> text) (net : network) (a : app) :
  trim (initialQuery a) <> [] ->
  isLoading a = false ->
  let s :=
    (handleInitialSubmit JSON_parse encodeURIComponent engine_message net a).1
  in
  view s = chat /\ initialQuery s = initialQuery a
  /\ currentTopic s = initialQuery a /\ followUpQuery s = []
  /\ isLoading s = false /\ loadingStatus s = []
  /\ exists c,
       messages s
       = [ {| role := user; content := initialQuery a |};
           {| role := assistant; content := c |} ].
Proof.
  intros Hq Hidle s. subst s. unfold handleInitialSubmit. rewrite Hidle.
  destruct (trim (initialQuery a)) as [|c0 t]; [done|].
  pose proof (research_page JSON_parse encodeURIComponent engine_message net
                (begin_submit a)) as H. cbv zeta in H.
  destruct (research _ _ _ _ (begin_submit a)) as [[s log] thrown].
  simpl in H. destruct H as (Hv & Hi & Ht & Hf & Hm).
  destruct thrown as [message|]; simpl.
  - rewrite Hv, Hi, Ht, Hf, Hm. repeat split. by eexists.
  - destruct Hm as [c Hm]. rewrite Hv, Hi, Ht, Hf, Hm. repeat split.
    by exists c.
Qed.

(** X12. A submission that is accepted always ends the same way, whether
    it succeeds or fails at any step: the page shows the chat view under
    the query as its topic, nothing is loading, the status line is empty,
    and the conversation is the user's query followed by one assistant
    message (the answer, or the error). *)
Theorem X12_an_accepted_submission_ends_with_an_answer
    (JSON_parse : text -> option json)
    (encodeURIComponent : text -> option text)
    (engine_message : engine_error -> text) (net : network) (a : app) :
  trim (initialQuery a) <> [] ->
  isLoading a = false ->
  let s :=
    (handleInitialSubmit JSON_parse encodeURIComponent engine_message net a).1
  in
  view s = chat /\ initialQuery s = initialQuery a
  /\ currentTopic s = initialQuery a /\ followUpQuery s = []
  /\ isLoading s = false /\ loadingStatus s = []
  /\ exists c,
       messages s
       = [ {| role := user; content := initialQuery a |};
           {| role := assistant; content := c |} ].
Proof.
  apply submission_page.
Qed.

Lemma X12_an_accepted_submission_ends_with_an_answer_witness :
  let s :=
    (handleInitialSubmit Sample.parse Sample.encode
       (fun _ => lit "TypeError") scenario_network
       (asking "Is coffee healthy?")).1 in
  view s = chat /\ initialQuery s = lit "Is coffee healthy?"
  /\ currentTopic s = lit "Is coffee healthy?" /\ followUpQuery s = []
  /\ isLoading s = false /\ loadingStatus s = []
  /\ exists c,
       messages s
       = [ {| role := user; content := lit "Is coffee healthy?" |};
           {| role := assistant; content := c |} ].
Proof.
  apply (X12_an_accepted_submission_ends_with_an_answer Sample.parse
           Sample.encode (fun _ => lit "TypeError") scenario_network
           (asking "Is coffee healthy?")).
  - vm_compute. discriminate.
  - reflexivity.
Defined.

(** X13. A new submission starts from a clean page: what it leaves and
    what it asks of the network depend on the query alone, not on the
    conversation, the sources or the topic that were there before. *)
Theorem X13_a_submission_forgets_the_previous_session
    (JSON_parse : text -> option json)
    (encodeURIComponent : text -> option text)
    (engine_message : engine_error -> text) (net : network) (a a' : app) :
  initialQuery a = initialQuery a' ->
  trim (initialQuery a) <> [] ->
  isLoading a = false -> isLoading a' = false ->
  handleInitialSubmit JSON_parse encodeURIComponent engine_message net a
  = handleInitialSubmit JSON_parse encodeURIComponent engine_message net a'.
Proof.
  intros Heq Hq Hidle Hidle'. unfold handleInitialSubmit.
  rewrite <- Heq, Hidle, Hidle'.
  destruct (trim (initialQuery a)) as [|c0 t]; [done|].
  f_equal. unfold research.
  replace (set_loadingStatus (lit "Optimizing search query...")
             (begin_submit a'))
    with (set_loadingStatus (lit "Optimizing search query...")
            (begin_submit a)); [reflexivity|].
  unfold begin_submit, resetState, set_loadingStatus, set_isLoading,
    set_view, set_currentTopic, push, set_messages; simpl.
  by rewrite Heq.
Qed.

Lemma X13_a_submission_forgets_the_previous_session_witness :
  handleInitialSubmit Sample.parse Sample.encode (fun _ => lit "TypeError")
    scenario_network (asking "Is coffee healthy?")
  = handleInitialSubmit Sample.parse Sample.encode (fun _ => lit "TypeError")
      scenario_network
      {| view := chat; initialQuery := lit "Is coffee healthy?";
         followUpQuery := lit "and tea?"; currentTopic := lit "Old topic";
         isLoading := false; loadingStatus := lit "stale";
         sources := five_sources;
         messages := [{| role := user; content := lit "Old question" |}] |}.
Proof.
  apply X13_a_submission_forgets_the_previous_session.
  - reflexivity.
  - vm_compute. discriminate.
  - reflexivity.
  - reflexivity.
Defined.

Section Searched.

Variable JSON_parse : text -> option json.
Variable encodeURIComponent : text -> option text.
Variable engine_message : engine_error -> text.
Variable net : network.
Variable a : app.

Local Abbreviation run :=
  (handleInitialSubmit JSON_parse encodeURIComponent engine_message net a).
Local Abbreviation query := (initialQuery a).

Variable encoded : text.
Hypothesis Hquery : trim query <> [].
Hypothesis Hidle : isLoading a = false.
Hypothesis Hencoded :
  encodeURIComponent (optimizeQuery (on_chat net query) query) = Some encoded.

(** X14. Once the search has answered with results, the list of sources
    shown is the first five of them, in the order of the search, and it
    stays so whatever the reads and the answer do: a source that cannot be
    read is still listed, at its place. *)
Theorem X14_sources_are_the_first_five_results
    (searchResponse : json) (data : list json) :
  on_search net (JINA_SEARCH_API ++ encoded) = Fulfilled searchResponse ->
  search_data searchResponse = Some data ->
  sources run.1 = take 5 data
  /\ (0 < length (sources run.1) <= 5)%nat.
Proof.
  intros Hsearch Hdata.
  assert (Hs : sources run.1 = take 5 data).
  { rewrite (run_searched _ _ _ _ _ _ _ Hquery Hidle Hencoded Hsearch), Hdata.
    unfold read_sources.
    destruct (reader_urls (take 5 data)) as [urls [e|]]; [done|].
    destruct (gather _ _ _ _) as [e|[combinedContext [|n]]]; [done..|].
    cbv zeta. cbn [conclude].
    match goal with
    | |- context [streamAiResponse ?P ?r ?p] =>
        pose proof (streamAiResponse_refs P p r) as H; cbv zeta in H;
        remember (content_at (length (messages p))
                    (refs (streamAiResponse P r p))) as c eqn:Hc;
        clear Hc; rewrite H
    end.
    reflexivity. }
  split; [done|]. rewrite Hs, length_take.
  unfold search_data in Hdata.
  destruct (chain _ _) as [[| | | |[|x l]|]|]; try discriminate.
  injection Hdata as <-. simpl length. lia.
Qed.

(** X15. When the search call itself fails, its message is what the
    assistant shows, behind the research-error heading; no read and no
    answer is asked for, and no source is listed. *)
Theorem X15_a_failed_search_is_reported (reason : text) :
  on_search net (JINA_SEARCH_API ++ encoded) = Rejected reason ->
  messages run.1
  = [ {| role := user; content := query |};
      {| role := assistant; content := research_error reason |} ]
  /\ run.2 = [ChatRequest query; SearchRequest (JINA_SEARCH_API ++ encoded)]
  /\ sources run.1 = [].
Proof.
  intros Hsearch. unfold handleInitialSubmit. rewrite Hidle.
  destruct (trim query) as [|c t]; [done|].
  unfold research. cbn [initialQuery set_loadingStatus begin_submit
    resetState set_isLoading set_view set_currentTopic push set_messages].
  by rewrite Hencoded, Hsearch.
Qed.

End Searched.

Lemma X14_sources_are_the_first_five_results_witness :
  let run :=
    handleInitialSubmit Sample.parse Sample.encode (fun _ => lit "TypeError")
      (sample_network
         (JArr (five_sources ++ [source_object "Six" "https://a.example/6"]))
         false)
      (asking "coffee") in
  sources run.1
  = take 5 (five_sources ++ [source_object "Six" "https://a.example/6"])
  /\ (0 < length (sources run.1) <= 5)%nat.
Proof.
  apply (X14_sources_are_the_first_five_results Sample.parse Sample.encode
           (fun _ => lit "TypeError")
           (sample_network
              (JArr (five_sources
                     ++ [source_object "Six" "https://a.example/6"]))
              false)
           (asking "coffee") (lit "coffee")
           ltac:(vm_compute; discriminate) eq_refl eq_refl
           (JObj [(lit "data",
                   JArr (five_sources
                         ++ [source_object "Six" "https://a.example/6"]))])).
  - reflexivity.
  - reflexivity.
Defined.

(** A network whose search call fails. *)
Lemma X15_a_failed_search_is_reported_witness :
  let net :=
    {| on_chat := fun _ => Rejected (lit "offline");
       on_search := fun _ => Rejected (lit "Network error or failed request: offline");
       on_read := fun _ _ => Rejected (lit "offline");
       on_stream := fun _ => Body Done |} in
  let run :=
    handleInitialSubmit Sample.parse Sample.encode (fun _ => lit "TypeError")
      net (asking "coffee") in
  messages run.1
  = [ {| role := user; content := lit "coffee" |};
      {| role := assistant;
         content :=
           research_error (lit "Network error or failed request: offline") |} ]
  /\ run.2 = [ChatRequest (lit "coffee");
              SearchRequest (JINA_SEARCH_API ++ lit "coffee")]
  /\ sources run.1 = [].
Proof.
  intros net.
  apply (X15_a_failed_search_is_reported Sample.parse Sample.encode
           (fun _ => lit "TypeError") net (asking "coffee") (lit "coffee")
           ltac:(vm_compute; discriminate) eq_refl eq_refl).
  reflexivity.
Defined.

(** X16. Whatever the pattern of reads, the evidence is made source by
    source, in the order of the list: a source whose read gave content
    contributes its block, numbered with its place in the list, the others
    contribute nothing; the count of successful reads is the number of
    those that gave content. *)
Theorem X16_evidence_follows_the_source_list
    (srcs : list Source) (vs : list json) (readerResults : list settled)
    (contents : list (option text)) (index : nat) (acc : text * nat) :
  Forall2 is_source srcs vs ->
  Forall2 read_outcome readerResults contents ->
  length vs = length readerResults ->
  gather index vs readerResults acc
  = inr (acc.1 ++ evidence (index + 1) srcs contents,
         (acc.2 + length (omap id contents))%nat).
Proof.
  intros Hs. revert readerResults contents index acc.
  induction Hs as [|s v srcs vs Hsv _ IH];
    intros results contents index acc Hr Hlen.
  - destruct Hr; [|discriminate]. simpl.
    by rewrite app_nil_r, Nat.add_0_r, <- surjective_pairing.
  - destruct Hr as [|result content results contents Hrc Hr]; [discriminate|].
    injection Hlen as Hlen. destruct content as [c|]; simpl in Hrc.
    + rewrite (gather_readable _ _ _ _ s v result c Hsv Hrc).
      rewrite (IH results contents (S index) _ Hr Hlen).
      cbn [fst snd evidence evidence_block omap list_omap id length].
      replace (S index + 1)%nat with (S (index + 1)) by lia.
      rewrite <- app_assoc. do 2 f_equal. lia.
    + replace (gather index (v :: vs) (result :: results) acc)
        with (gather (S index) vs results acc).
      * rewrite (IH results contents (S index) _ Hr Hlen).
        cbn [fst snd evidence evidence_block omap list_omap id length].
        rewrite app_nil_l.
        by replace (S index + 1)%nat with (S (index + 1)) by lia.
      * destruct result as [value|reason]; [|done]. cbn [gather].
        unfold unreadable in Hrc.
        destruct (truthy (Some value)); [|done].
        cbn [andb] in Hrc. by rewrite Hrc.
Qed.

Lemma X16_evidence_follows_the_source_list_witness :
  gather 0 five_sources
    [page_of "A"; Rejected (lit "timeout"); Fulfilled (JStr (lit "plain"));
     page_of "D"; page_of ""] ([], 0%nat)
  = inr ([] ++ evidence (0 + 1) five_records
                 [Some (lit "A"); None; None; Some (lit "D"); None],
         (0 + length (omap id [Some (lit "A"); None; None; Some (lit "D");
                               None]))%nat).
Proof.
  apply X16_evidence_follows_the_source_list.
  - repeat constructor.
  - repeat constructor; simpl;
      try (eexists; repeat split; [reflexivity.. | discriminate]).
  - reflexivity.
Defined.

(** X17. A read that the transport hands over as plain text, because the
    response is not declared as JSON, never counts as evidence, whatever
    the text: the gatherer finds no content in a string. *)
Theorem X17_a_page_received_as_text_is_not_evidence
    (JSON_parse : text -> option json) (SyntaxError_message : text -> text)
    (response : http_response) (v : json) :
  match content_type response with
  | Some contentType => includes (lit "application/json") contentType = false
  | None => True
  end ->
  robustFetch JSON_parse SyntaxError_message (Responds response) = inr v ->
  unreadable (Fulfilled v)
  /\ forall index source topSources readerResults acc,
       gather index (source :: topSources) (Fulfilled v :: readerResults) acc
       = gather (S index) topSources readerResults acc.
Proof.
  intros Htype. unfold robustFetch, response_text.
  destruct (ok response); [|by destruct (body_text response)].
  assert (forall t, unreadable (Fulfilled (JStr t))
            /\ forall index source topSources readerResults acc,
                 gather index (source :: topSources)
                   (Fulfilled (JStr t) :: readerResults) acc
                 = gather (S index) topSources readerResults acc) as Htext.
  { intros t. split.
    - simpl. by destruct (negb _).
    - intros. cbn [gather]. by destruct (truthy (Some (JStr t))). }
  destruct (content_type response) as [c|].
  - rewrite Htype. destruct (body_text response) as [e|t]; [done|].
    intros [= <-]. apply Htext.
  - destruct (body_text response) as [e|t]; [done|].
    intros [= <-]. apply Htext.
Qed.

Lemma X17_a_page_received_as_text_is_not_evidence_witness :
  unreadable (Fulfilled (JStr (lit "# A page in markdown"))).
Proof.
  apply (X17_a_page_received_as_text_is_not_evidence Sample.parse
           (fun _ => [])
           {| ok := true; status := 200;
              content_type := Some (lit "text/plain; charset=utf-8");
              body_text := inr (lit "# A page in markdown") |}).
  - vm_compute. reflexivity.
  - reflexivity.
Defined.

(** ** More on the query optimizer *)

(** X18. Whatever the reply, the optimizer returns either the query it
    was given, as it is, or a text with no double quote and no apostrophe
    in it. *)
Theorem X18_optimized_query_has_no_quote (reply : settled) (query : text) :
  let optimized := optimizeQuery reply query in
  optimized = query \/ ((QUOTE ∉ optimized) /\ (APOSTROPHE ∉ optimized)).
Proof.
  intros optimized. subst optimized. unfold optimizeQuery, optimize_try.
  destruct reply as [response|reason]; [|by left].
  destruct (completion_content response) as [[| | |s| |]|]; try (by left).
  destruct (trim s) as [|c t]; [by left|]. right.
  unfold strip_quotes. rewrite !list_elem_of_filter. tauto.
Qed.

Lemma strip_quotes_all s :
  Forall (fun c => c = QUOTE \/ c = APOSTROPHE) s -> strip_quotes s = [].
Proof.
  unfold strip_quotes. induction 1 as [|c s Hc _ IH]; [done|].
  rewrite filter_cons. destruct (decide _) as [[H1 H2]|_]; [|done].
  by destruct Hc.
Qed.

(** X19. A completion made of quote characters only, once trimmed, turns
    any question into the empty query: the optimizer does not fall back
    to the question in that case. *)
Theorem X19_a_completion_of_quotes_gives_an_empty_query
    (response : json) (s query : text) :
  completion_content response = Some (JStr s) ->
  trim s <> [] ->
  Forall (fun c => c = QUOTE \/ c = APOSTROPHE) (trim s) ->
  optimizeQuery (Fulfilled response) query = [].
Proof.
  intros Hc Hs Hall. unfold optimizeQuery, optimize_try. rewrite Hc.
  destruct (trim s) as [|c t] eqn:Ht; [done|]. by apply strip_quotes_all.
Qed.

Lemma X19_a_completion_of_quotes_gives_an_empty_query_witness :
  optimizeQuery (Fulfilled (completion [32; QUOTE; QUOTE; 32]))
    (lit "Is coffee healthy?") = [].
Proof.
  apply (X19_a_completion_of_quotes_gives_an_empty_query _
           [32; QUOTE; QUOTE; 32]).
  - reflexivity.
  - vm_compute. discriminate.
  - vm_compute. repeat constructor.
Defined.

(** ** Trimming *)

Lemma trim_start_split s :
  exists sp, s = sp ++ trim_start s /\ Forall (fun c => is_space c = true) sp.
Proof.
  induction s as [|c s (sp & IH & Hsp)]; simpl; [by exists []|].
  destruct (is_space c) eqn:Hc; [|by exists []].
  exists (c :: sp). split; [by rewrite <- app_comm_cons, <- IH|].
  by constructor.
Qed.

Lemma trim_start_head s c r :
  trim_start s = c :: r -> is_space c = false.
Proof.
  induction s as [|c' s IH]; simpl; [done|].
  destruct (is_space c') eqn:Hc; [done|]. by intros [= <- _].
Qed.

Lemma trim_start_fixed c r :
  is_space c = false -> trim_start (c :: r) = c :: r.
Proof. intros H. simpl. by rewrite H. Qed.

Lemma trim_head s c r : trim s = c :: r -> is_space c = false.
Proof.
  unfold trim. intros H.
  destruct (trim_start_split (reverse (trim_start s))) as (sp & Hsplit & _).
  apply (f_equal reverse) in Hsplit.
  rewrite reverse_involutive, reverse_app, H in Hsplit.
  simpl in Hsplit. by apply trim_start_head in Hsplit.
Qed.

Lemma trim_last s c r : trim s = r ++ [c] -> is_space c = false.
Proof.
  unfold trim. intros H. apply (f_equal reverse) in H.
  rewrite reverse_involutive, reverse_app in H. simpl in H.
  by apply trim_start_head in H.
Qed.

(** Trimming twice is trimming once. *)
Lemma trim_trim s : trim (trim s) = trim s.
Proof.
  destruct (trim s) as [|c r] eqn:Ht; [done|].
  pose proof (trim_head _ _ _ Ht) as Hc.
  unfold trim at 1. rewrite (trim_start_fixed c r Hc).
  destruct (reverse (c :: r)) as [|c' r'] eqn:Hrev.
  { apply (f_equal reverse) in Hrev. by rewrite reverse_involutive in Hrev. }
  assert (is_space c' = false) as Hc'.
  { apply (trim_last s c' (reverse r')). rewrite Ht.
    apply (f_equal reverse) in Hrev.
    by rewrite reverse_involutive, reverse_cons in Hrev. }
  rewrite (trim_start_fixed c' r' Hc'), <- Hrev.
  apply reverse_involutive.
Qed.

(** ** The stored key *)

(** X20. Saving a key that is not blank, when the storage takes the
    write, and loading the page anew brings the key back, trimmed: it is
    stored under its name without touching any other item, the page opened
    afterwards holds it and counts it as saved, and the token sent with
    the requests (the key, trimmed) is the same before and after. *)
Theorem X20_saved_key_comes_back_on_reload
    (s : settings) (localStorage : gmap (list N) (list N)) :
  trim (jinaApiKey s) <> [] ->
  let saved := saveApiKey true s localStorage in
  let reloaded := onMounted first_visit saved.2 in
  isApiKeySaved saved.1 = true /\ showSettings saved.1 = false
  /\ saved.2 !! KEY_NAME = Some (trim (jinaApiKey s))
  /\ (forall name, name <> KEY_NAME -> saved.2 !! name = localStorage !! name)
  /\ reloaded
     = {| jinaApiKey := trim (jinaApiKey s); isApiKeySaved := true;
          showSettings := false |}
  /\ trim (jinaApiKey reloaded) = trim (jinaApiKey s).
Proof.
  intros Hkey saved reloaded. subst reloaded saved. unfold saveApiKey.
  destruct (trim (jinaApiKey s)) as [|c r] eqn:Ht; [done|]. simpl.
  split; [done|]. split; [done|].
  split; [by rewrite lookup_insert_eq|].
  split; [intros name Hne; by rewrite lookup_insert_ne|].
  unfold onMounted. rewrite lookup_insert_eq. simpl.
  split; [done|]. rewrite <- Ht. apply trim_trim.
Qed.

Lemma X20_saved_key_comes_back_on_reload_witness :
  onMounted first_visit
    (saveApiKey true
       {| jinaApiKey := lit "  jina_abc123 "; isApiKeySaved := false;
          showSettings := true |} ∅).2
  = {| jinaApiKey := lit "jina_abc123"; isApiKeySaved := true;
       showSettings := false |}.
Proof.
  pose proof (X20_saved_key_comes_back_on_reload
                {| jinaApiKey := lit "  jina_abc123 ";
                   isApiKeySaved := false; showSettings := true |} ∅) as H.
  destruct H as (_ & _ & _ & _ & -> & _).
  - vm_compute. discriminate.
  - vm_compute. reflexivity.
Defined.

Lemma key_step_kept st act : key_kept st -> key_kept (key_step st act).
Proof.
  destruct st as [s storage]. unfold key_kept. intros Hkept.
  destruct act as [k|accepted| |]; simpl; try done.
  - unfold saveApiKey. destruct (trim (jinaApiKey s)) as [|c r] eqn:Ht;
      [done|]. destruct accepted; [|done]. simpl. intros _. exists (c :: r).
    by rewrite lookup_insert_eq.
  - unfold onMounted.
    destruct (storage !! KEY_NAME) as [[|c k]|] eqn:Hk; simpl; try done.
    intros _. by exists (c :: k).
Qed.

Lemma key_step_storage st act :
  (is_Some (st.2 !! KEY_NAME) -> is_Some ((key_step st act).2 !! KEY_NAME))
  /\ forall name, name <> KEY_NAME ->
       (key_step st act).2 !! name = st.2 !! name.
Proof.
  destruct st as [s storage]. destruct act as [k|accepted| |]; simpl;
    try done.
  unfold saveApiKey. destruct (trim (jinaApiKey s)) as [|c r]; [done|].
  destruct accepted; [|done]. simpl. split.
  - intros _. rewrite lookup_insert_eq. by eexists.
  - intros name Hne. by rewrite lookup_insert_ne.
Qed.

(** X21. Through anything the visitor does (typing a key, submitting it,
    opening the settings, loading the page anew), a key counts as saved
    only while the storage holds a non-empty one; an item stored under
    the key's name is never removed, and no other item of the storage is
    ever touched. *)
Theorem X21_saved_means_stored
    (actions : list key_action) (localStorage : gmap (list N) (list N)) :
  let final := foldl key_step (first_visit, localStorage) actions in
  key_kept final
  /\ (is_Some (localStorage !! KEY_NAME) -> is_Some (final.2 !! KEY_NAME))
  /\ forall name, name <> KEY_NAME ->
       final.2 !! name = localStorage !! name.
Proof.
  intros final. subst final.
  assert (forall st,
            key_kept st ->
            key_kept (foldl key_step st actions)
            /\ (is_Some (st.2 !! KEY_NAME) ->
                is_Some ((foldl key_step st actions).2 !! KEY_NAME))
            /\ forall name, name <> KEY_NAME ->
                 (foldl key_step st actions).2 !! name = st.2 !! name) as H.
  { induction actions as [|act actions IH]; intros st Hst; [done|].
    simpl. destruct (IH (key_step st act) (key_step_kept st act Hst))
      as (Hk & Hs & Ho).
    destruct (key_step_storage st act) as [Hs' Ho'].
    split; [done|]. split; [tauto|].
    intros name Hne. by rewrite Ho, Ho'. }
  apply H. unfold key_kept. simpl. discriminate.
Qed.

(** ** The resizable panel *)

Lemma deliver_in_bounds p ev :
  width_in_bounds p -> width_in_bounds (deliver p ev).
Proof.
  intros Hp. destruct ev as [|x| |]; simpl; try done.
  - destruct (mousemove_listener p); [|done]. unfold handleMouseMove.
    destruct (isResizing p && mainContentEl p); [|done].
    split; simpl.
    + apply Q.le_max_l.
    + apply Q.max_lub; [done|apply Q.le_min_r].
  - by destruct (mouseup_listener p).
Qed.

(** X22. The width of the sidebar never leaves the range from 320 to 700,
    whatever the pointer does; and while the panel is dragged a move
    within reach puts the left edge of the pointer, less the 60 of the
    icon bar, as the width. *)
Theorem X22_sidebar_width_stays_in_range (events : list pointer_event) :
  width_in_bounds (deliver_all panel_start events)
  /\ forall p clientX,
       mousemove_listener p = true -> isResizing p = true ->
       mainContentEl p = true ->
       (320 <= clientX - 60)%Q -> (clientX - 60 <= 700)%Q ->
       (sidebarWidth (deliver p (MouseMove clientX)) == clientX - 60)%Q.
Proof.
  split.
  - unfold deliver_all.
    assert (forall p, width_in_bounds p ->
                      width_in_bounds (foldl deliver p events)) as H.
    { induction events as [|ev events IH]; intros p Hp; [done|].
      simpl. by apply IH, deliver_in_bounds. }
    apply H. split; simpl; done.
  - intros p x Hl Hr Hm Hlo Hhi. simpl. rewrite Hl.
    unfold handleMouseMove. rewrite Hr, Hm. simpl.
    rewrite (Q.min_l _ _ Hhi). by apply Q.max_r.
Qed.

Lemma deliver_paired p ev : listeners_paired p -> listeners_paired (deliver p ev).
Proof.
  unfold listeners_paired. destruct p as [w r m move up]. simpl.
  intros ->. destruct ev as [|x| |]; simpl; try done.
  - destruct up; [|done]. unfold handleMouseMove; simpl.
    by destruct (r && m).
  - by destruct up.
Qed.

Lemma deliver_all_paired p events :
  listeners_paired p -> listeners_paired (deliver_all p events).
Proof.
  unfold deliver_all. revert p.
  induction events as [|ev events IH]; intros p Hp; [done|].
  simpl. by apply IH, deliver_paired.
Qed.

(** Without a new press, a panel whose listeners are off keeps its width
    and its listeners off. *)
Lemma released_stays p events :
  mousemove_listener p = false -> mouseup_listener p = false ->
  Forall (fun ev => ev <> MouseDown) events ->
  sidebarWidth (deliver_all p events) = sidebarWidth p.
Proof.
  unfold deliver_all. intros Hm Hu Hall. revert p Hm Hu.
  induction Hall as [|ev events Hev _ IH]; intros p Hm Hu; [done|].
  simpl. destruct ev as [|x| |]; simpl; try done.
  - rewrite Hm. by apply IH.
  - rewrite Hu. by apply IH.
  - by rewrite IH.
Qed.

(** X23. Releasing the button ends the drag: from the release on, and
    until the resizer is pressed again, no move of the pointer changes the
    width. *)
Theorem X23_release_ends_the_drag (before after : list pointer_event) :
  Forall (fun ev => ev <> MouseDown) after ->
  sidebarWidth (deliver_all panel_start (before ++ MouseUp :: after))
  = sidebarWidth (deliver_all panel_start (before ++ [MouseUp])).
Proof.
  intros Hafter. unfold deliver_all.
  rewrite !foldl_app. simpl.
  pose proof (deliver_all_paired panel_start before eq_refl) as Hpair.
  unfold deliver_all, listeners_paired in Hpair.
  set (p := foldl deliver panel_start before) in *.
  apply (released_stays _ after); [| |done].
  - destruct (mouseup_listener p) eqn:Hu; simpl; [done|]. by rewrite Hpair.
  - by destruct (mouseup_listener p) eqn:Hu.
Qed.

Lemma X23_release_ends_the_drag_witness :
  sidebarWidth
    (deliver_all panel_start
       ([MouseDown; MouseMove 500] ++ MouseUp :: [MouseMove 900; MouseUp]))
  = sidebarWidth
      (deliver_all panel_start ([MouseDown; MouseMove 500] ++ [MouseUp])).
Proof.
  apply X23_release_ends_the_drag.
  repeat constructor; discriminate.
Defined.

(** ** Follow-up turns *)

Lemma but_last_snoc {A} (l : list A) x : but_last (l ++ [x]) = l.
Proof.
  unfold but_last. rewrite length_app. simpl.
  replace (length l + 1 - 1)%nat with (length l) by lia.
  apply take_app_length.
Qed.

Lemma followUp_run JSON_parse net a :
  trim (followUpQuery a) <> [] ->
  isLoading a = false ->
  let run := handleFollowUpSubmit JSON_parse net a in
  let turn := {| role := user; content := followUpQuery a |} in
  run.2 = [StreamRequest (followUpPrompt :: messages a ++ [turn])]
  /\ (exists c,
        messages run.1
        = messages a ++ [turn; {| role := assistant; content := c |}])
  /\ followUpQuery run.1 = [] /\ isLoading run.1 = false
  /\ sources run.1 = sources a /\ view run.1 = view a
  /\ currentTopic run.1 = currentTopic a
  /\ initialQuery run.1 = initialQuery a.
Proof.
  intros Hq Hidle run turn. subst run. unfold handleFollowUpSubmit.
  rewrite Hidle. destruct (trim (followUpQuery a)) as [|c0 t]; [done|].
  cbv zeta. cbn [fst snd].
  match goal with
  | |- context [streamAiResponse ?P ?r ?p] =>
      pose proof (streamAiResponse_refs P p r) as H; cbv zeta in H;
      remember (content_at (length (messages p))
                  (refs (streamAiResponse P r p))) as c eqn:Hc;
      clear Hc; rewrite H
  end.
  simpl. rewrite but_last_snoc. fold turn.
  split; [done|]. split; [|done].
  exists c. by rewrite <- app_assoc.
Qed.

(** X24. A follow-up that is accepted asks the network for one thing
    only, the answer: no optimizing, no search, no read. What it sends is
    the continue-the-conversation instruction, the whole conversation so
    far, and the new question; what it leaves is the conversation with
    the question and one assistant message behind it, the input emptied,
    nothing loading, and the sources, the view and the topic as they
    were. *)
Theorem X24_follow_up_reuses_the_conversation
    (JSON_parse : text -> option json) (net : network) (a : app) :
  trim (followUpQuery a) <> [] ->
  isLoading a = false ->
  let run := handleFollowUpSubmit JSON_parse net a in
  let turn := {| role := user; content := followUpQuery a |} in
  run.2 = [StreamRequest (followUpPrompt :: messages a ++ [turn])]
  /\ (exists c,
        messages run.1
        = messages a ++ [turn; {| role := assistant; content := c |}])
  /\ followUpQuery run.1 = [] /\ isLoading run.1 = false
  /\ sources run.1 = sources a /\ view run.1 = view a
  /\ currentTopic run.1 = currentTopic a
  /\ initialQuery run.1 = initialQuery a.
Proof. apply followUp_run. Qed.

Lemma X24_follow_up_reuses_the_conversation_witness :
  let a :=
    {| view := chat; initialQuery := lit "Is coffee healthy?";
       followUpQuery := lit "And tea?"; currentTopic := lit "Is coffee healthy?";
       isLoading := false; loadingStatus := [];
       sources := five_sources;
       messages :=
         [ {| role := user; content := lit "Is coffee healthy?" |};
           {| role := assistant; content := lit "It may be[1]." |} ] |} in
  let run := handleFollowUpSubmit Sample.parse scenario_network a in
  let turn := {| role := user; content := lit "And tea?" |} in
  run.2 = [StreamRequest (followUpPrompt :: messages a ++ [turn])]
  /\ (exists c,
        messages run.1
        = messages a ++ [turn; {| role := assistant; content := c |}])
  /\ followUpQuery run.1 = [] /\ isLoading run.1 = false
  /\ sources run.1 = sources a /\ view run.1 = view a
  /\ currentTopic run.1 = currentTopic a
  /\ initialQuery run.1 = initialQuery a.
Proof.
  intros a.
  apply (X24_follow_up_reuses_the_conversation Sample.parse scenario_network a).
  - vm_compute. discriminate.
  - reflexivity.
Defined.

(** X25. The first follow-up after a research run sends the question and
    the answer as the visitor sees them, and nothing else of the run:
    neither the research instruction nor the evidence gathered from the
    sources is sent again. *)
Theorem X25_follow_up_does_not_resend_the_evidence
    (JSON_parse : text -> option json)
    (encodeURIComponent : text -> option text)
    (engine_message : engine_error -> text) (net : network) (a : app)
    (question : text) :
  trim (initialQuery a) <> [] ->
  isLoading a = false ->
  trim question <> [] ->
  let researched :=
    (handleInitialSubmit JSON_parse encodeURIComponent engine_message net a).1
  in
  exists answer,
    messages researched
    = [ {| role := user; content := initialQuery a |};
        {| role := assistant; content := answer |} ]
    /\ (handleFollowUpSubmit JSON_parse net
          (set_followUpQuery question researched)).2
       = [StreamRequest
            [ followUpPrompt;
              {| role := user; content := initialQuery a |};
              {| role := assistant; content := answer |};
              {| role := user; content := question |} ]].
Proof.
  intros Hq Hidle Hquestion researched.
  destruct (submission_page JSON_parse encodeURIComponent engine_message net
              a Hq Hidle) as (_ & _ & _ & _ & Hload & _ & answer & Hm).
  fold researched in Hload, Hm. exists answer. split; [done|].
  destruct (followUp_run JSON_parse net
              (set_followUpQuery question researched)) as [-> _]; try done.
  simpl. by rewrite Hm.
Qed.

Lemma X25_follow_up_does_not_resend_the_evidence_witness :
  exists answer,
    messages
      (handleInitialSubmit Sample.parse Sample.encode
         (fun _ => lit "TypeError") scenario_network
         (asking "Is coffee healthy?")).1
    = [ {| role := user; content := initialQuery (asking "Is coffee healthy?") |};
        {| role := assistant; content := answer |} ]
    /\ (handleFollowUpSubmit Sample.parse scenario_network
          (set_followUpQuery (lit "And tea?")
             (handleInitialSubmit Sample.parse Sample.encode
                (fun _ => lit "TypeError") scenario_network
                (asking "Is coffee healthy?")).1)).2
       = [StreamRequest
            [ followUpPrompt;
              {| role := user;
                 content := initialQuery (asking "Is coffee healthy?") |};
              {| role := assistant; content := answer |};
              {| role := user; content := lit "And tea?" |} ]].
Proof.
  apply (X25_follow_up_does_not_resend_the_evidence Sample.parse Sample.encode
           (fun _ => lit "TypeError") scenario_network
           (asking "Is coffee healthy?") (lit "And tea?")).
  - vm_compute. discriminate.
  - reflexivity.
  - vm_compute. discriminate.
Defined.

(** ** Candidates that are dropped *)

Section Dropped.

Variable JSON_parse : text -> option json.
Variable a : app.

Local Abbreviation idx := (length (messages a)).
Local Abbreviation settle' := (settle JSON_parse idx).

Lemma settle_dropped object rest f :
  handled JSON_parse object None ->
  buffer f = object ++ rest ->
  settle' f = settle' (consume (length object) f).
Proof.
  intros [He Hdrop] Hb.
  apply objectEndIndex_bounds in He as Hbound.
  apply (objectEndIndex_app _ rest) in He. rewrite <- Hb in He.
  unfold settle at 1.
  destruct (length (buffer f)) as [|n] eqn:Hlen.
  { rewrite Hb, length_app in Hlen. lia. }
  simpl. destruct (buffer f) as [|c b] eqn:Hbuf; [done|].
  rewrite He. rewrite <- Hbuf in *.
  replace (take (length object) (buffer f)) with object
    by by rewrite Hb, take_app_length.
  assert (try_object JSON_parse idx object (consume (length object) f)
          = (Continue, consume (length object) f)) as ->.
  { unfold try_object. destruct (JSON_parse object) as [parsed|]; [|done].
    destruct parsed; try done; by rewrite Hdrop. }
  apply settle_enough. simpl. rewrite length_drop. lia.
Qed.

Lemma settle_handled objects outcomes f :
  (idx < length (messages (refs f)))%nat ->
  Forall2 (handled JSON_parse) objects outcomes ->
  buffer f = concat objects ->
  exists f',
    settle' f = (Continue, f')
    /\ assistantResponse f'
       = assistantResponse f ++ concat (omap id outcomes).
Proof.
  intros Hi Hall. revert f Hi.
  induction Hall as [|object outcome objects outcomes Hd _ IH];
    intros f Hi Hb.
  - exists f. unfold settle. simpl in Hb. rewrite Hb. simpl.
    by rewrite app_nil_r.
  - simpl in Hb. destruct outcome as [t|].
    + rewrite (settle_delivers JSON_parse idx false object t _ f Hi Hd Hb).
      destruct (IH (publish idx t (consume (length object) f)))
        as (f' & Hs & Hr).
      * simpl. by rewrite length_alter.
      * simpl. by rewrite Hb, drop_app_length.
      * exists f'. split; [done|]. simpl in Hr |- *.
        by rewrite Hr, <- app_assoc.
    + rewrite (settle_dropped object _ f Hd Hb).
      destruct (IH (consume (length object) f)) as (f' & Hs & Hr).
      * done.
      * simpl. by rewrite Hb, drop_app_length.
      * exists f'. by split.
Qed.

(** X26. A candidate that cannot be used does not cost the rest of the
    answer: when some of the objects of a stream do not parse, parse to
    null or carry a content that cannot be converted, the answer is the
    deltas of the others, in their order, whatever the chunking. *)
Theorem X26_a_dropped_candidate_loses_only_itself
    (objects chunks : list text) (outcomes : list (option text)) :
  Forall2 (handled JSON_parse) objects outcomes ->
  concat chunks = concat objects ->
  let run := streamAiResponse JSON_parse (Body (chunked chunks)) a in
  assistantResponse run = concat (omap id outcomes)
  /\ content_at idx (refs run) = concat (omap id outcomes).
Proof.
  intros Hall Heq run.
  destruct (stream_of_chunks JSON_parse a chunks) as (_ & Hr & Hc).
  cbv zeta in Hr, Hc. fold run in Hr, Hc. rewrite Hc, Hr, Heq.
  destruct (settle_handled objects outcomes
              (receive (concat objects) (opening a)))
    as (f' & -> & Hresp); try done.
  simpl. rewrite length_app. simpl. lia.
Qed.

End Dropped.

Lemma X26_a_dropped_candidate_loses_only_itself_witness :
  let broken := doc "{`choices`:[{`delta`:{`content`:`lost`}}}" in
  let whole := hello_object ++ broken ++ late_object in
  let run :=
    streamAiResponse Sample.parse
      (Body (chunked [take 60 whole; drop 60 whole])) blank in
  assistantResponse run = concat (omap id [Some (lit "Hello"); None;
                                           Some (lit ", late")])
  /\ content_at 0 (refs run)
     = concat (omap id [Some (lit "Hello"); None; Some (lit ", late")]).
Proof.
  apply (X26_a_dropped_candidate_loses_only_itself Sample.parse blank
           [hello_object; doc "{`choices`:[{`delta`:{`content`:`lost`}}}";
            late_object]).
  - constructor; [apply hello_delivers|].
    constructor; [split; vm_compute; done|].
    constructor; [apply late_delivers|]. constructor.
  - vm_compute. reflexivity.
Defined.
